(** * Atmospheric transmittance scripts: optical depth, abundances, combiner

    A shallow embedding of the numerical core of the comparison scripts

    - [python_gas_analysis.py]               (class [SingleGasUMG]),
    - [compare_trace_gas_absorption.py]      (NO2 / SO2 column abundances),
    - [compare_matlab_python_transmission.py] (interpolation and product),

    followed by the properties their design document states about them.

    Numbers.  The scripts compute with IEEE doubles held in numpy arrays.
    Doubles are idealised here as real numbers: [+], [*], [/], [exp] and
    [log] are the exact operations of [R], a literal such as [1.67766e5]
    is the decimal number it denotes, and [x ** y] with a float exponent is
    [Rpower x y] (which agrees with the mathematical power for [0 < x]);
    [x ** n] with an integer literal [n] is the iterated product [x ^ n].
    Rounding, overflow and NaN are outside the model.

    Arrays.  A one-dimensional numpy array is a [list R]; a two-dimensional
    array is the list of its rows. *)

From Stdlib Require Import Reals Lra Lia String List Bool Arith.
Import ListNotations.

Local Open Scope R_scope.
Local Open Scope string_scope.
Local Open Scope list_scope.

(* ================================================================= *)
(** ** Python results *)

(** Exceptions the modelled statements can raise: [getattr] on a missing
    attribute, and numpy on operands whose shapes do not fit. *)
Inductive exn : Type :=
| AttributeError (name : string)
| ValueError.

Inductive result (A : Type) : Type :=
| Ok (a : A)
| Raise (e : exn).

Arguments Ok {A} a.
Arguments Raise {A} e.

Definition bind {A B : Type} (m : result A) (k : A -> result B) : result B :=
  match m with
  | Ok a => k a
  | Raise e => Raise e
  end.

Notation "x <- m ;; k" := (bind m (fun x => k))
  (at level 61, m at next level, right associativity).

Fixpoint mapM {A B : Type} (f : A -> result B) (l : list A) : result (list B) :=
  match l with
  | [] => Ok []
  | x :: l' => y <- f x ;; ys <- mapM f l' ;; Ok (y :: ys)
  end.

Definition raises {A : Type} (m : result A) : Prop :=
  exists e, m = Raise e.

(* ================================================================= *)
(** ** numpy arrays *)

Definition matrix : Type := list (list R).

Fixpoint zipWith {A B C : Type} (f : A -> B -> C) (l1 : list A) (l2 : list B)
  : list C :=
  match l1, l2 with
  | x :: l1', y :: l2' => f x y :: zipWith f l1' l2'
  | _, _ => []
  end.

(** [np.zeros((n, w))]. *)
Definition zeros (n w : nat) : matrix := repeat (repeat 0 w) n.

(** [a * k] for a row [a] and a scalar [k]. *)
Definition row_scale (a : list R) (k : R) : list R :=
  map (fun x => x * k) a.

(** Broadcasting a row of shape [(1, len r)] against [w] columns: equal
    lengths are kept, a single column is repeated, anything else is
    numpy's "operands could not be broadcast together". *)
Definition broadcast_cols (w : nat) (r : list R) : result (list R) :=
  if Nat.eqb (length r) w then Ok r
  else match r with
       | [x] => Ok (repeat x w)
       | _ => Raise ValueError
       end.

(** [t += r * c] for [t] of shape [(n, w)], a row [r] of shape [(1, _)] and
    a column [c] of shape [(n, 1)]: entry [(i, j)] becomes
    [t[i][j] + r[j] * c[i]]. *)
Definition iadd_outer (w : nat) (t : matrix) (r : list R) (c : list R)
  : result matrix :=
  r' <- broadcast_cols w r ;;
  Ok (zipWith (fun trow m => zipWith (fun x a => x + a * m) trow r') t c).

(** Elementwise [a + b] and [a * b] of arrays of one shape. *)
Definition madd (a b : matrix) : matrix := zipWith (zipWith Rplus) a b.

Definition vmul (a b : list R) : list R := zipWith Rmult a b.

(** Python's [sum] of a list of arrays of shape [(n, w)]: the running
    total starts at zero and absorbs the arrays from left to right. *)
Definition msum (n w : nat) (l : list matrix) : matrix :=
  fold_left madd l (zeros n w).

(** [shaped n w m]: [m] has [n] rows of [w] columns. *)
Definition shaped (n w : nat) (m : matrix) : Prop :=
  length m = n /\ Forall (fun r => length r = w) m.

(* ================================================================= *)
(** ** python_gas_analysis.py *)

(** The Loschmidt number, [compare_trace_gas_absorption.py] line 9
    ("Constants from Python implementation"); [python_gas_analysis.py]
    imports the same name from the fitting package. *)
Definition NLOSCHMIDT : R := 2.6868e19.

Module GasAnalysis.

(** An instance of [SingleGasUMG].  The wavelength grid, the absorption
    tables ([o2abs], [ch4abs], ... looked up by attribute name) and the
    method [Airmass_from_SMARTS] are inherited from the base class, which
    lives in the fitting package; they are carried as fields.  The airmass
    method acts on each zenith angle separately. *)
Record SingleGasUMG : Type := mkUMG {
  tair : R;
  co2_ppm : R;
  with_trace_gases : bool;
  target_gas : string;
  wvl_arr : list R;
  attrs : string -> option (list R);
  Airmass_from_SMARTS : R -> string -> R
}.

(** [getattr(self, name)]. *)
Definition getattr (self : SingleGasUMG) (name : string) : result (list R) :=
  match attrs self name with
  | Some a => Ok a
  | None => Raise (AttributeError name)
  end.

Definition getam (self : SingleGasUMG) (sza : list R) (constituent : string)
  : list R :=
  map (fun z => Airmass_from_SMARTS self z constituent) sza.

Definition getabs (self : SingleGasUMG) (constituent : string)
  : result (list R) :=
  getattr self (String.append constituent "abs").

(** One accumulation statement
    [taug_l += getabs(c) * abundance * getam(c')]. *)
Definition accumulate (self : SingleGasUMG) (sza : list R) (taug_l : matrix)
    (c : string) (abundance : R) (c' : string) : result matrix :=
  a <- getabs self c ;;
  iadd_outer (length (wvl_arr self)) taug_l (row_scale a abundance)
             (getam self sza c').

(** The test [self.target_gas == g or self.target_gas == 'ALL']. *)
Definition selected (self : SingleGasUMG) (g : string) : bool :=
  (target_gas self =? g) || (target_gas self =? "ALL").

(** [_optical_depth(self, pp0, sza)]: [pp0] is the pressure ratio, a
    scalar that numpy broadcasts, and [sza] the column of zenith angles;
    the result has one row per zenith angle and one column per
    wavelength. *)
Definition _optical_depth (self : SingleGasUMG) (pp0 : R) (sza : list R)
  : result matrix :=
  let tt0 := 0 + (tair self + 273.15) / 273.15 in
  let taug_l := zeros (length sza) (length (wvl_arr self)) in
  taug_l <-
    (if selected self "O2" then
       let abundance := 1.67766e5 * pp0 in
       accumulate self sza taug_l "o2" abundance "o2"
     else Ok taug_l) ;;
  taug_l <-
    (if selected self "CH4" then
       let abundance := 1.3255 * Rpower pp0 1.0574 in
       accumulate self sza taug_l "ch4" abundance "ch4"
     else Ok taug_l) ;;
  taug_l <-
    (if selected self "CO" then
       let abundance :=
         0.29625 * Rpower pp0 2.4480 *
         exp (0.54669 - 2.4114 * pp0 + 0.65756 * (pp0 ^ 2)) in
       accumulate self sza taug_l "co" abundance "co"
     else Ok taug_l) ;;
  taug_l <-
    (if selected self "N2O" then
       let abundance := 0.24730 * Rpower pp0 1.0791 in
       accumulate self sza taug_l "n2o" abundance "n2o"
     else Ok taug_l) ;;
  taug_l <-
    (if selected self "CO2" then
       let abundance := 0.802685 * co2_ppm self * pp0 in
       accumulate self sza taug_l "co2" abundance "co2"
     else Ok taug_l) ;;
  taug_l <-
    (if selected self "N2" then
       let abundance := 3.8269 * Rpower pp0 1.8374 in
       accumulate self sza taug_l "n2" abundance "n2"
     else Ok taug_l) ;;
  taug_l <-
    (if selected self "O4" then
       let abundance :=
         1.8171e4 * (NLOSCHMIDT ^ 2) * Rpower pp0 1.7984 / Rpower tt0 0.344 in
       accumulate self sza taug_l "o4" abundance "o2"
     else Ok taug_l) ;;
  if with_trace_gases self then
    if selected self "NH3" then
      let lpp0 := ln pp0 in
      let abundance :=
        exp (- 8.6499 + 2.1947 * lpp0 - 2.5936 * (lpp0 ^ 2)
             - 1.819 * (lpp0 ^ 3) - 0.65854 * (lpp0 ^ 4)) in
      accumulate self sza taug_l "nh3" abundance "nh3"
    else Ok taug_l
  else Ok taug_l.

(** The gases [main] analyses one at a time. *)
Definition gases : list string :=
  ["O2"; "CH4"; "CO"; "N2O"; "CO2"; "N2"; "O4"; "NH3"].

(** Field updates. *)
Definition with_tair (self : SingleGasUMG) (t : R) : SingleGasUMG :=
  mkUMG t (co2_ppm self) (with_trace_gases self) (target_gas self)
        (wvl_arr self) (attrs self) (Airmass_from_SMARTS self).

Definition with_flag (self : SingleGasUMG) (b : bool) : SingleGasUMG :=
  mkUMG (tair self) (co2_ppm self) b (target_gas self)
        (wvl_arr self) (attrs self) (Airmass_from_SMARTS self).

Definition with_airmass (self : SingleGasUMG) (am : R -> string -> R)
  : SingleGasUMG :=
  mkUMG (tair self) (co2_ppm self) (with_trace_gases self) (target_gas self)
        (wvl_arr self) (attrs self) am.

End GasAnalysis.

(* ================================================================= *)
(** ** compare_trace_gas_absorption.py *)

Module TraceGasScript.

(** Python's built-in [min(a, b)]: the first argument unless the second
    is strictly smaller. *)
Definition py_min (a b : R) : R :=
  if Rlt_dec b a then b else a.

Definition p_ : R := 1013.25.

Definition pp0 : R := p_ / 1013.25.

(** The right-hand sides of the two abundance assignments, as functions of
    the pressure ratio they read. *)
Definition no2_abundance_at (pp0 : R) : R :=
  1e-4 * py_min (1.8599 + 0.18453 * pp0) (41.771 * pp0).

Definition so2_abundance_at (pp0 : R) : R :=
  1e-4 * 0.11133 * Rpower pp0 0.812 *
  exp (0.81319 + 3.0557 * (pp0 ^ 2) - 1.578 * (pp0 ^ 3)).

(** The values the script prints, at its standard pressure. *)
Definition no2_abundance : R := no2_abundance_at pp0.

Definition so2_abundance : R := so2_abundance_at pp0.

End TraceGasScript.

(* ================================================================= *)
(** ** compare_matlab_python_transmission.py *)

Module TransmissionScript.

(** *** [np.interp]

    numpy first rejects an empty sample grid and sample values of another
    length.  For each query it then places the key: left of the grid,
    right of it, or at the interval [j] with [xp[j] <= key < xp[j+1]],
    which its search routine finds by walking up from index 1 (for long
    grids it bisects instead, reaching the same interval whenever [xp]
    increases). *)

Inductive position : Type :=
| Before
| After
| Index (j : nat).

(** [for (i = 1; i < len && key >= arr[i]; i++); return i - 1;]
    The argument is the grid without its first point. *)
Fixpoint linear_search (key : R) (tl : list R) : nat :=
  match tl with
  | a :: tl' => if Rle_dec a key then S (linear_search key tl') else O
  | [] => O
  end.

Definition binary_search_with_guess (key : R) (arr : list R) : position :=
  if Rlt_dec (last arr 0) key then After
  else if Rlt_dec key (hd 0 arr) then Before
  else Index (linear_search key (tl arr)).

(** One query point; [lval] and [rval] are the defaults [fp[0]] and
    [fp[-1]]. *)
Definition interp_point (xp fp : list R) (x : R) : R :=
  let lval := hd 0 fp in
  let rval := last fp 0 in
  if Nat.eqb (length xp) 1 then
    if Rlt_dec x (hd 0 xp) then lval
    else if Rlt_dec (hd 0 xp) x then rval
    else hd 0 fp
  else
    match binary_search_with_guess x xp with
    | Before => lval
    | After => rval
    | Index j =>
        if Nat.eqb j (length xp - 1) then nth j fp 0
        else if Req_dec_T (nth j xp 0) x then nth j fp 0
        else
          let slope :=
            (nth (j + 1) fp 0 - nth j fp 0) / (nth (j + 1) xp 0 - nth j xp 0) in
          slope * (x - nth j xp 0) + nth j fp 0
    end.

Definition np_interp (x xp fp : list R) : result (list R) :=
  match xp with
  | [] => Raise ValueError
  | _ :: _ =>
      if Nat.eqb (length fp) (length xp) then Ok (map (interp_point xp fp) x)
      else Raise ValueError
  end.

(** *** The script

    A component model object exposes its native grid [wvl_arr] and the
    spectrum [make_transmission()] returns on it; the five classes come
    from the fitting package. *)
Record component : Type := mkComponent {
  wvl_arr : list R;
  make_transmission : list R
}.

(** Lines 44-70, with the target grid and the five component objects as
    arguments. *)
Definition trans_total (wavelengths : list R)
    (ray oz water aer umg : component) : result (list R) :=
  trans_ray_interp <-
    np_interp wavelengths (wvl_arr ray) (make_transmission ray) ;;
  trans_oz_interp <-
    np_interp wavelengths (wvl_arr oz) (make_transmission oz) ;;
  trans_water_interp <-
    np_interp wavelengths (wvl_arr water) (make_transmission water) ;;
  trans_aer_interp <-
    np_interp wavelengths (wvl_arr aer) (make_transmission aer) ;;
  trans_umg_interp <-
    np_interp wavelengths (wvl_arr umg) (make_transmission umg) ;;
  Ok (vmul (vmul (vmul (vmul trans_ray_interp trans_oz_interp)
                       trans_water_interp) trans_aer_interp)
           trans_umg_interp).

End TransmissionScript.

(* ================================================================= *)
(** ** The design document's vocabulary *)

Module Design.

Import GasAnalysis.

(** The uniformly mixed gases and the trace gas of the accumulator. *)
Inductive species : Type :=
| O2 | CH4 | CO | N2O | CO2 | N2 | O4 | NH3.

Definition all_species : list species :=
  [O2; CH4; CO; N2O; CO2; N2; O4; NH3].

(** The identifier a caller selects a species by. *)
Definition name (s : species) : string :=
  match s with
  | O2 => "O2" | CH4 => "CH4" | CO => "CO" | N2O => "N2O"
  | CO2 => "CO2" | N2 => "N2" | O4 => "O4" | NH3 => "NH3"
  end.

(** The species' own constituent identity; its absorption table is the
    attribute of that name followed by [abs]. *)
Definition constituent (s : species) : string :=
  match s with
  | O2 => "o2" | CH4 => "ch4" | CO => "co" | N2O => "n2o"
  | CO2 => "co2" | N2 => "n2" | O4 => "o4" | NH3 => "nh3"
  end.

(** The constituent whose airmass multiplies the species' term in
    [_optical_depth]: the collision complex O4 takes the airmass of O2. *)
Definition airmass_constituent (s : species) : string :=
  match s with
  | O4 => "o2"
  | _ => constituent s
  end.

Definition is_trace (s : species) : bool :=
  match s with
  | NH3 => true
  | _ => false
  end.

Definition species_eqb (a b : species) : bool :=
  match a, b with
  | O2, O2 | CH4, CH4 | CO, CO | N2O, N2O
  | CO2, CO2 | N2, N2 | O4, O4 | NH3, NH3 => true
  | _, _ => false
  end.

(** Section 4.2: the closed-form column abundances. *)
Definition N_L : R := 2.6868e19.

Definition tt0 (temperature_C : R) : R := (temperature_C + 273.15) / 273.15.

Definition abundance (s : species) (pp0 temperature_C co2_ppm : R) : R :=
  match s with
  | O2 => 1.67766e5 * pp0
  | CH4 => 1.3255 * Rpower pp0 1.0574
  | CO => 0.29625 * Rpower pp0 2.448 *
          exp (0.54669 - 2.4114 * pp0 + 0.65756 * pp0 ^ 2)
  | N2O => 0.24730 * Rpower pp0 1.0791
  | CO2 => 0.802685 * co2_ppm * pp0
  | N2 => 3.8269 * Rpower pp0 1.8374
  | O4 => 1.8171e4 * N_L ^ 2 * Rpower pp0 1.7984
          / Rpower (tt0 temperature_C) 0.344
  | NH3 => let l := ln pp0 in
           exp (- 8.6499 + 2.1947 * l - 2.5936 * l ^ 2 - 1.819 * l ^ 3
                - 0.65854 * l ^ 4)
  end.

(** The term of species [s] as an array: coefficient times abundance times
    the airmass of constituent [key], for each zenith angle and
    wavelength. *)
Definition species_term (s : species) (key : string)
    (tair co2 : R) (am : R -> string -> R) (pp0 : R) (sza a : list R)
  : matrix :=
  map (fun z => map (fun k => k * abundance s pp0 tair co2 * am z key) a) sza.

(** Section 4.3: the accumulator over an explicit species list.  One
    species adds [coeff * abundance * airmass] to the running spectrum;
    the airmass constituent is a parameter so that both the dispatch the
    code performs and the one by the species' own identity can be
    expressed. *)
Definition term_with (am_of : species -> string)
    (self : SingleGasUMG) (pp0 : R) (sza : list R) (s : species)
    (t : matrix) : result matrix :=
  accumulate self sza t (constituent s)
             (abundance s pp0 (tair self) (co2_ppm self)) (am_of s).

Definition term := term_with airmass_constituent.

Fixpoint accumulator (self : SingleGasUMG) (pp0 : R) (sza : list R)
    (S : list species) (t : matrix) : result matrix :=
  match S with
  | [] => Ok t
  | s :: S' => t' <- term self pp0 sza s t ;; accumulator self pp0 sza S' t'
  end.

(** The species an instance accumulates: those its [target_gas] selects,
    trace gases only under [with_trace_gases]. *)
Definition chosen (self : SingleGasUMG) (s : species) : bool :=
  selected self (name s) && (negb (is_trace s) || with_trace_gases self).

Definition selection (self : SingleGasUMG) : list species :=
  filter (chosen self) all_species.

(** Modelled from the spec: [make_transmission] of the base class is not
    part of the scripts; section 4.4 gives the Beer-Lambert relation
    [T = exp(-tau)], elementwise. *)
Definition beer_lambert (tau : matrix) : matrix :=
  map (map (fun t => exp (- t))) tau.

(** Section 4.6: the value a component takes at a target wavelength.
    Outside the native range it is the nearest endpoint value; inside, the
    point on the chord of the bracketing interval. *)
Inductive interpolates (xp fp : list R) (x : R) : R -> Prop :=
| clamp_left :
    x <= hd 0 xp -> interpolates xp fp x (hd 0 fp)
| clamp_right :
    last xp 0 <= x -> interpolates xp fp x (last fp 0)
| on_chord (j : nat) :
    (S j < length xp)%nat ->
    nth j xp 0 <= x <= nth (S j) xp 0 ->
    interpolates xp fp x
      (nth j fp 0 +
       (x - nth j xp 0) * (nth (S j) fp 0 - nth j fp 0)
       / (nth (S j) xp 0 - nth j xp 0)).

(** A wavelength grid: strictly increasing. *)
Fixpoint increasing (l : list R) : Prop :=
  match l with
  | a :: (b :: _) as l' => a < b /\ increasing l'
  | _ => True
  end.

(** Section 3: a component spectrum has one value per point of its own
    non-empty, increasing grid. *)
Definition well_formed (c : TransmissionScript.component) : Prop :=
  TransmissionScript.wvl_arr c <> [] /\
  increasing (TransmissionScript.wvl_arr c) /\
  length (TransmissionScript.make_transmission c) =
  length (TransmissionScript.wvl_arr c).

End Design.

(* ================================================================= *)
(** ** Sample inputs *)

Module Samples.

Import GasAnalysis TransmissionScript.

(** An instance that tells the airmass of ['o4'] from all others: one
    wavelength, every table [[1]], no temperature offset. *)
Definition o4_probe : SingleGasUMG :=
  mkUMG 0 415 true "O4" [577] (fun _ => Some [1])
        (fun _ c => if c =? "o4" then 2 else 1).

(** An instance whose target names no gas, and which has no absorption
    table at all. *)
Definition unknown_probe : SingleGasUMG :=
  mkUMG 15 415 true "XYZ" [760] (fun _ => None) (fun _ _ => 1).

(** An instance with trace gases enabled that targets oxygen. *)
Definition nh3_probe : SingleGasUMG :=
  mkUMG 15 415 true "O2" [760] (fun _ => Some [1]) (fun _ _ => 1).

(** Two small components: a constant one on two points, and a ramp. *)
Definition flat : component := mkComponent [400; 600] [1; 1].

Definition ramp : component := mkComponent [400; 600] [0; 1].

(** A component with a single point. *)
Definition one_point : component := mkComponent [500] [0.9].

End Samples.

(* ================================================================= *)
(** ** numpy reductions and indexing used by the analysis scripts *)

Module Stats.

(** What these operations raise: [IndexError] when a boolean index does
    not have the length of the array it indexes, [ValueError] when a
    reduction without identity meets an empty array. *)
Inductive np_exn : Type :=
| IndexError
| ZeroSizeError.

Inductive outcome (A : Type) : Type :=
| Done (a : A)
| Fail (e : np_exn).

Arguments Done {A} a.
Arguments Fail {A} e.

Definition and_then {A B : Type} (m : outcome A) (k : A -> outcome B)
  : outcome B :=
  match m with
  | Done a => k a
  | Fail e => Fail e
  end.

Notation "x <~ m ;; k" := (and_then m (fun x => k))
  (at level 61, m at next level, right associativity).

(** Comparisons of floats as booleans. *)
Definition ltb (x y : R) : bool := if Rlt_dec x y then true else false.

Definition leb (x y : R) : bool := if Rle_dec x y then true else false.

(** [arr < thr] and [arr > thr], elementwise. *)
Definition less_than (arr : list R) (thr : R) : list bool :=
  map (fun x => ltb x thr) arr.

Definition greater_than (arr : list R) (thr : R) : list bool :=
  map (fun x => ltb thr x) arr.

(** [arr <= thr], elementwise. *)
Definition less_equal (arr : list R) (thr : R) : list bool :=
  map (fun x => leb x thr) arr.

(** [np.sum(mask)]: the number of [True] entries. *)
Fixpoint np_sum (mask : list bool) : nat :=
  match mask with
  | [] => O
  | b :: mask' => (if b then 1 else 0) + np_sum mask'
  end.

(** [arr[mask]] for a boolean mask. *)
Fixpoint select {A : Type} (arr : list A) (mask : list bool) : list A :=
  match arr, mask with
  | x :: arr', b :: mask' =>
      if b then x :: select arr' mask' else select arr' mask'
  | _, _ => []
  end.

Definition bool_index {A : Type} (arr : list A) (mask : list bool)
  : outcome (list A) :=
  if Nat.eqb (length mask) (length arr) then Done (select arr mask)
  else Fail IndexError.

(** [np.min], [np.max]. *)
Definition np_min (l : list R) : outcome R :=
  match l with
  | [] => Fail ZeroSizeError
  | x :: l' => Done (fold_left (fun m y => if Rlt_dec y m then y else m) l' x)
  end.

Definition np_max (l : list R) : outcome R :=
  match l with
  | [] => Fail ZeroSizeError
  | x :: l' => Done (fold_left (fun m y => if Rlt_dec m y then y else m) l' x)
  end.

(** [np.argmin], [np.argmax]: the index of the first extreme value. *)
Fixpoint argmin_from (best : R) (best_i i : nat) (l : list R) : nat :=
  match l with
  | [] => best_i
  | y :: l' =>
      if Rlt_dec y best then argmin_from y i (S i) l'
      else argmin_from best best_i (S i) l'
  end.

Definition np_argmin (l : list R) : outcome nat :=
  match l with
  | [] => Fail ZeroSizeError
  | x :: l' => Done (argmin_from x 0 1 l')
  end.

Fixpoint argmax_from (best : R) (best_i i : nat) (l : list R) : nat :=
  match l with
  | [] => best_i
  | y :: l' =>
      if Rlt_dec best y then argmax_from y i (S i) l'
      else argmax_from best best_i (S i) l'
  end.

Definition np_argmax (l : list R) : outcome nat :=
  match l with
  | [] => Fail ZeroSizeError
  | x :: l' => Done (argmax_from x 0 1 l')
  end.

(** [np.mean] of a non-empty array (on an empty one numpy warns and
    returns nan, which the real numbers do not have).  The sum and the
    quotient are those of [R]; numpy rounds both, so the computed mean
    can be a few units in the last place away from this one. *)
Definition np_mean (l : list R) : R :=
  fold_right Rplus 0 l / INR (length l).

(** [np.diff]. *)
Fixpoint np_diff (l : list R) : list R :=
  match l with
  | a :: (b :: _) as l' => (b - a) :: np_diff l'
  | _ => []
  end.

(** [np.where(mask)[0]]: the indices of the [True] entries. *)
Fixpoint where_from (i : nat) (mask : list bool) : list nat :=
  match mask with
  | [] => []
  | b :: mask' =>
      if b then i :: where_from (S i) mask' else where_from (S i) mask'
  end.

Definition np_where (mask : list bool) : list nat := where_from 0 mask.

(** The slice [l[a:b]]. *)
Definition slice {A : Type} (l : list A) (a b : nat) : list A :=
  firstn (b - a) (skipn a l).

(** [l[i]] for a non-negative index. *)
Definition index {A : Type} (l : list A) (i : nat) : outcome A :=
  match nth_error l i with
  | Some x => Done x
  | None => Fail IndexError
  end.

End Stats.

(* ================================================================= *)
(** ** python_gas_analysis.py, [analyze_single_gas] *)

Module GasSummary.

Import Stats.

(** The figures printed under [verbose]. *)
Record summary : Type := mkSummary {
  min_trans : R;
  max_trans : R;
  mean_trans : R;
  min_wavelength : R;
  strong_absorption : nat
}.

(** Lines 107-122.  [trans] is the spectrum [umg.make_transmission()]
    returned and [wavelengths] the model's [wvl_arr], both produced by the
    fitting package; the spectrum is taken as one row. *)
Definition analyze_single_gas (trans wavelengths : list R)
  : outcome summary :=
  min_trans <~ np_min trans ;;
  max_trans <~ np_max trans ;;
  let mean_trans := np_mean trans in
  min_idx <~ np_argmin trans ;;
  let strong_absorption := np_sum (less_than trans 0.99) in
  min_wavelength <~ index wavelengths min_idx ;;
  Done (mkSummary min_trans max_trans mean_trans min_wavelength
                  strong_absorption).

End GasSummary.

(* ================================================================= *)
(** ** python_ozone_analysis.py *)

Module OzoneAnalysis.

Import Stats.

Record summary : Type := mkSummary {
  min_trans : R;
  max_trans : R;
  mean_trans : R;
  min_wavelength : R;
  very_strong_abs : nat;
  strong_abs : nat;
  moderate_abs : nat;
  weak_abs : nat
}.

(** [analyze_ozone_transmission], lines 41-58: the figures printed under
    [verbose] for the spectrum [trans] of the ozone model and its grid. *)
Definition analyze_ozone_transmission (trans wavelengths : list R)
  : outcome summary :=
  min_trans <~ np_min trans ;;
  max_trans <~ np_max trans ;;
  let mean_trans := np_mean trans in
  min_idx <~ np_argmin trans ;;
  let very_strong_abs := np_sum (less_than trans 0.01) in
  let strong_abs := np_sum (less_than trans 0.1) in
  let moderate_abs := np_sum (less_than trans 0.5) in
  let weak_abs := np_sum (less_than trans 0.9) in
  min_wavelength <~ index wavelengths min_idx ;;
  Done (mkSummary min_trans max_trans mean_trans min_wavelength
                  very_strong_abs strong_abs moderate_abs weak_abs).

(** What [analyze_uv_absorption] prints. *)
Record uv_figures : Type := mkUV {
  uv_lo : R;
  uv_hi : R;
  uv_min_trans : R;
  uv_min_wvl : R;
  mean_uv_trans : R;
  uv_very_strong : nat;
  uv_strong : nat;
  uv_moderate : nat
}.

Inductive uv_report : Type :=
| NoUVWavelengths
| UVFigures (f : uv_figures).

(** [analyze_uv_absorption(wavelengths, transmission, uo_value)]. *)
Definition analyze_uv_absorption (wavelengths transmission : list R)
  : outcome uv_report :=
  let uv_mask := less_equal wavelengths 350 in
  if Nat.eqb (np_sum uv_mask) 0 then Done NoUVWavelengths
  else
    uv_wavelengths <~ bool_index wavelengths uv_mask ;;
    uv_transmission <~ bool_index transmission uv_mask ;;
    min_idx <~ np_argmin uv_transmission ;;
    min_trans <~ index uv_transmission min_idx ;;
    min_wvl <~ index uv_wavelengths min_idx ;;
    let mean_uv_trans := np_mean uv_transmission in
    lo <~ np_min uv_wavelengths ;;
    hi <~ np_max uv_wavelengths ;;
    let very_strong := np_sum (less_than uv_transmission 0.01) in
    let strong := np_sum (less_than uv_transmission 0.1) in
    let moderate := np_sum (less_than uv_transmission 0.5) in
    Done (UVFigures (mkUV lo hi min_trans min_wvl mean_uv_trans
                          very_strong strong moderate)).

End OzoneAnalysis.

(* ================================================================= *)
(** ** python_water_analysis.py *)

Module WaterAnalysis.

Import Stats.

(** One printed line of [find_water_absorption_bands]. *)
Record band_line : Type := mkBand {
  band_number : nat;
  band_lo : R;
  band_hi : R;
  deepest : R;
  deepest_at : R
}.

Inductive band_report : Type :=
| NoStrongBands
| Bands (lines : list band_line).

(** The body of the loop for the indices [idxs], from the running
    [band_start] and [band_count]. *)
Fixpoint band_loop (abs_wavelengths abs_transmissions : list R)
    (band_breaks : list nat) (idxs : list nat) (band_start band_count : nat)
  : outcome (list band_line) :=
  match idxs with
  | [] => Done []
  | i :: idxs' =>
      let band_end :=
        if Nat.ltb i (length band_breaks) then (nth i band_breaks O + 1)%nat
        else length abs_wavelengths in
      if Nat.ltb band_start band_end then
        let band_count := (band_count + 1)%nat in
        let wvl_range := slice abs_wavelengths band_start band_end in
        let trans_range := slice abs_transmissions band_start band_end in
        min_idx <~ np_argmin trans_range ;;
        min_trans <~ index trans_range min_idx ;;
        lo <~ np_min wvl_range ;;
        hi <~ np_max wvl_range ;;
        at_wvl <~ index wvl_range min_idx ;;
        rest <~ band_loop abs_wavelengths abs_transmissions band_breaks idxs'
                          band_end band_count ;;
        Done (mkBand band_count lo hi min_trans at_wvl :: rest)
      else
        band_loop abs_wavelengths abs_transmissions band_breaks idxs'
                  band_end band_count
  end.

(** [find_water_absorption_bands(wavelengths, transmission, pw_value,
    threshold)]. *)
Definition find_water_absorption_bands (wavelengths transmission : list R)
    (threshold : R) : outcome band_report :=
  let strong_abs_mask := less_than transmission threshold in
  if Nat.eqb (np_sum strong_abs_mask) 0 then Done NoStrongBands
  else
    abs_wavelengths <~ bool_index wavelengths strong_abs_mask ;;
    abs_transmissions <~ bool_index transmission strong_abs_mask ;;
    let diff_wvl := np_diff abs_wavelengths in
    let band_breaks := np_where (greater_than diff_wvl 20) in
    lines <~ band_loop abs_wavelengths abs_transmissions band_breaks
                       (seq 0 (length band_breaks + 1)) 0%nat 0%nat ;;
    Done (Bands lines).

End WaterAnalysis.

(* ================================================================= *)
(** ** compare_matlab_python_transmission.py, lines 89-96 *)

Module TransmissionBands.

Import Stats.

(** [(wavelengths >= lo) & (wavelengths <= hi)]. *)
Definition band_mask (lo hi : R) (wavelengths : list R) : list bool :=
  map (fun w => leb lo w && leb w hi) wavelengths.

Definition uv_mask := band_mask 300 400.

Definition vis_mask := band_mask 400 700.

Definition nir_mask := band_mask 700 1100.

(** The three printed band means, UV, visible and NIR in that order. *)
Definition band_means (wavelengths trans_total : list R)
  : outcome (R * R * R) :=
  uv <~ bool_index trans_total (uv_mask wavelengths) ;;
  vis <~ bool_index trans_total (vis_mask wavelengths) ;;
  nir <~ bool_index trans_total (nir_mask wavelengths) ;;
  Done (np_mean uv, np_mean vis, np_mean nir).

End TransmissionBands.

(* ================================================================= *)
(** ** analyze_comparison.py, from line 37 *)

Module ComparisonScript.

Import Stats.

Inductive verdict : Type :=
| ExcellentAgreement
| GoodAgreement
| SignificantDifferences.

(** The figures the script prints from the two tables of rows
    [(wavelength, total transmission)].  The relative differences and the
    band averages, which are printed too, divide by table values or by
    selection sizes that may be zero and are left out.  The differences
    are those of [R]; the script rounds each to the nearest double before
    comparing it with a threshold, which keeps the order of two
    differences but can move one that is within rounding of a threshold
    onto it. *)
Record comparison : Type := mkComparison {
  n_points : nat;
  first_wvl : R;
  last_wvl : R;
  mean_abs_diff : R;
  max_abs_diff : R;
  worst_row : R * R;
  flagged : list (R * R * R * R);
  conclusion : verdict
}.

(** [np.any(mask)]. *)
Definition np_any (mask : list bool) : bool := existsb (fun b => b) mask.

(** [a[-1]]. *)
Definition index_last {A : Type} (l : list A) (d : A) : outcome A :=
  match l with
  | [] => Fail IndexError
  | _ :: _ => Done (last l d)
  end.

Definition compare (python_data matlab_data : list (R * R))
  : outcome comparison :=
  let min_len := Nat.min (length python_data) (length matlab_data) in
  let python_data := firstn min_len python_data in
  let matlab_data := firstn min_len matlab_data in
  first <~ index python_data 0 ;;
  final <~ index_last python_data (0, 0) ;;
  let differences :=
    zipWith Rminus (map snd matlab_data) (map snd python_data) in
  let abs_diff := map Rabs differences in
  let mean_abs := np_mean abs_diff in
  max_abs <~ np_max abs_diff ;;
  max_diff_idx <~ np_argmax abs_diff ;;
  worst <~ index python_data max_diff_idx ;;
  let threshold := 1e-6 in
  let significant_diffs := greater_than abs_diff threshold in
  let flagged :=
    if np_any significant_diffs then
      let sig_wvls := select (map fst python_data) significant_diffs in
      let sig_py := select (map snd python_data) significant_diffs in
      let sig_ml := select (map snd matlab_data) significant_diffs in
      let sig_diff := select differences significant_diffs in
      firstn 10 (combine (combine (combine sig_wvls sig_py) sig_ml) sig_diff)
    else [] in
  let conclusion :=
    if ltb max_abs 1e-5 then ExcellentAgreement
    else if ltb max_abs 1e-3 then GoodAgreement
    else SignificantDifferences in
  Done (mkComparison (length python_data) (fst first) (fst final)
                     mean_abs max_abs worst flagged conclusion).

End ComparisonScript.

(* ================================================================= *)
(** ** Bands as index intervals *)

Module BandIntervals.

Import Stats WaterAnalysis.

(** The loop of [find_water_absorption_bands] with the successive values
    of [band_end] listed beforehand. *)
Fixpoint bands_from (abs_wavelengths abs_transmissions : list R)
    (ends : list nat) (band_start band_count : nat)
  : outcome (list band_line) :=
  match ends with
  | [] => Done []
  | band_end :: ends' =>
      if Nat.ltb band_start band_end then
        let band_count := (band_count + 1)%nat in
        let wvl_range := slice abs_wavelengths band_start band_end in
        let trans_range := slice abs_transmissions band_start band_end in
        min_idx <~ np_argmin trans_range ;;
        min_trans <~ index trans_range min_idx ;;
        lo <~ np_min wvl_range ;;
        hi <~ np_max wvl_range ;;
        at_wvl <~ index wvl_range min_idx ;;
        rest <~ bands_from abs_wavelengths abs_transmissions ends'
                           band_end band_count ;;
        Done (mkBand band_count lo hi min_trans at_wvl :: rest)
      else
        bands_from abs_wavelengths abs_transmissions ends'
                   band_end band_count
  end.

(** The values [band_end] takes: one past each break, then the length. *)
Definition band_ends (band_breaks : list nat) (n : nat) : list nat :=
  map (fun b => (b + 1)%nat) band_breaks ++ [n].

(** A printed line describes the points with indices [s <= j < e]. *)
Definition describes (aw tr : list R) (s e num : nat) (l : band_line)
  : Prop :=
  band_number l = num /\
  (forall j, (s <= j < e)%nat ->
     band_lo l <= nth j aw 0 <= band_hi l /\ deepest l <= nth j tr 0) /\
  (exists j, (s <= j < e)%nat /\ band_lo l = nth j aw 0) /\
  (exists j, (s <= j < e)%nat /\ band_hi l = nth j aw 0) /\
  (exists j, (s <= j < e)%nat /\
             deepest l = nth j tr 0 /\ deepest_at l = nth j aw 0).

(** Lines describing the consecutive intervals that start at [s] and end
    at the successive [ends], numbered from [c + 1]. *)
Inductive tiles (aw tr : list R) : nat -> nat -> list nat ->
                                   list band_line -> Prop :=
| tiles_nil s c : tiles aw tr s c [] []
| tiles_cons s c e ends l lines :
    (s < e)%nat ->
    describes aw tr s e (S c) l ->
    tiles aw tr e (S c) ends lines ->
    tiles aw tr s c (e :: ends) (l :: lines).

(** Successive ends grow strictly and stop at [n]. *)
Fixpoint climbs (s : nat) (ends : list nat) (n : nat) : Prop :=
  match ends with
  | [] => s = n
  | e :: ends' => (s < e <= n)%nat /\ climbs e ends' n
  end.

End BandIntervals.

(* ================================================================= *)
(** ** Further vocabulary *)

Module Vocabulary.

Import Design.


(** A table [_optical_depth] can use: present, and as long as the grid or
    of length one. *)
Definition usable (wvl : list R) (tables : string -> option (list R))
    (s : species) : Prop :=
  exists a, tables (String.append (constituent s) "abs") = Some a /\
            (length a = length wvl \/ length a = 1%nat).

(** An array of transmittances: every entry between 0 and 1. *)
Definition unit_interval (l : list R) : Prop :=
  Forall (fun v => 0 <= v <= 1) l.

(** The absolute differences over the rows both tables have. *)
Definition abs_diffs (python_data matlab_data : list (R * R)) : list R :=
  zipWith (fun m p => Rabs (snd m - snd p)) matlab_data python_data.

End Vocabulary.

(* ================================================================= *)
(** * Properties *)

Import GasAnalysis Design Samples Vocabulary.

(* ----------------------------------------------------------------- *)
(** ** The result monad *)

Lemma bind_Ok_l {A B} (a : A) (k : A -> result B) : bind (Ok a) k = k a.
Proof. reflexivity. Qed.

Lemma bind_Ok_r {A} (m : result A) : bind m Ok = m.
Proof. destruct m; reflexivity. Qed.

Lemma bind_assoc {A B C} (m : result A) (k : A -> result B)
    (h : B -> result C) :
  bind (bind m k) h = bind m (fun a => bind (k a) h).
Proof. destruct m; reflexivity. Qed.

Lemma bind_ext {A B} (m : result A) (k k' : A -> result B) :
  (forall a, m = Ok a -> k a = k' a) -> bind m k = bind m k'.
Proof. destruct m; simpl; auto. Qed.

Lemma mapM_ext {A B} (f g : A -> result B) (l : list A) :
  (forall x, In x l -> f x = g x) -> mapM f l = mapM g l.
Proof.
  induction l as [|x l IH]; intros H; simpl; [reflexivity|].
  rewrite (H x (or_introl eq_refl)), IH; [reflexivity|].
  intros y Hy. apply H. now right.
Qed.

Lemma mapM_map {A B C} (f : B -> result C) (g : A -> B) (l : list A) :
  mapM f (map g l) = mapM (fun x => f (g x)) l.
Proof. induction l as [|x l IH]; simpl; [reflexivity|now rewrite IH]. Qed.

(* ----------------------------------------------------------------- *)
(** ** Shapes *)

Lemma zipWith_length {A B C} (f : A -> B -> C) l1 l2 :
  length (zipWith f l1 l2) = Nat.min (length l1) (length l2).
Proof.
  revert l2; induction l1 as [|x l1 IH]; intros [|y l2]; simpl; auto.
Qed.

Lemma zeros_shaped n w : shaped n w (zeros n w).
Proof.
  unfold shaped, zeros. split; [apply repeat_length|].
  apply Forall_forall. intros r Hr.
  apply repeat_spec in Hr. subst r. apply repeat_length.
Qed.

Lemma broadcast_cols_length w r r' :
  broadcast_cols w r = Ok r' -> length r' = w.
Proof.
  unfold broadcast_cols.
  destruct (Nat.eqb (length r) w) eqn:E.
  - intros H. inversion H. subst r'. now apply Nat.eqb_eq.
  - destruct r as [|x [|y r]]; try discriminate.
    intros H. inversion H. apply repeat_length.
Qed.

Lemma madd_shaped n w a b : shaped n w a -> shaped n w b -> shaped n w (madd a b).
Proof.
  unfold shaped, madd. intros [La Fa] [Lb Fb]. revert n b La Lb Fb.
  induction Fa as [|ra a Hra Fa IH]; intros n [|rb b] La Lb Fb; simpl in *;
    try (split; [lia|constructor]); try (subst n; discriminate).
  inversion Fb as [|? ? Hrb Fb']; subst.
  destruct (IH (length a) b eq_refl ltac:(lia) Fb') as [L F].
  split; [simpl; lia|].
  constructor; [|exact F].
  rewrite zipWith_length. lia.
Qed.

Lemma row_add_zero (m : R) (trow r : list R) :
  length trow = length r ->
  zipWith (fun x a => x + a * m) trow r =
  zipWith Rplus trow
          (zipWith (fun x a => x + a * m) (repeat 0 (length r)) r).
Proof.
  revert r; induction trow as [|x trow IH]; intros [|a r] H; simpl in *;
    try discriminate; [reflexivity|].
  rewrite <- IH by lia. f_equal. lra.
Qed.

Lemma iadd_outer_shaped n w t r c t' :
  shaped n w t -> length c = n ->
  iadd_outer w t r c = Ok t' -> shaped n w t'.
Proof.
  unfold iadd_outer. intros [Lt Ft] Lc.
  destruct (broadcast_cols w r) as [r'|e] eqn:E; simpl; [|discriminate].
  apply broadcast_cols_length in E.
  intros H. inversion H. subst t'. clear H.
  revert n c Lt Lc. induction Ft as [|trow t Htrow Ft IH];
    intros n [|m c] Lt Lc; simpl in *; subst n; try discriminate;
    try (split; [reflexivity|constructor]).
  destruct (IH (length t) c eq_refl ltac:(lia)) as [L F].
  split; [simpl; lia|].
  constructor; [|exact F].
  rewrite zipWith_length. lia.
Qed.

(** Adding a product to [t] is adding to [t] what the same statement
    leaves in a zero array. *)
Lemma iadd_outer_split n w t r c :
  shaped n w t -> length c = n ->
  iadd_outer w t r c =
  (m <- iadd_outer w (zeros n w) r c ;; Ok (madd t m)).
Proof.
  unfold iadd_outer. intros [Lt Ft] Lc.
  destruct (broadcast_cols w r) as [r'|e] eqn:E; simpl; [|reflexivity].
  apply broadcast_cols_length in E. subst w. apply (f_equal Ok).
  unfold madd, zeros.
  revert n c Lt Lc. induction Ft as [|trow t Htrow Ft IH];
    intros n [|m c] Lt Lc; simpl in *; subst n; try discriminate;
    try reflexivity.
  apply f_equal2.
  - apply row_add_zero. exact Htrow.
  - apply (IH (length t) c eq_refl). lia.
Qed.

(* ----------------------------------------------------------------- *)
(** ** One accumulation statement *)

Section Accumulate.

Variable self : SingleGasUMG.
Variable sza : list R.

Let n := length sza.
Let w := length (wvl_arr self).

Lemma getam_length c : length (getam self sza c) = n.
Proof. unfold getam. apply length_map. Qed.

Lemma accumulate_shaped t c ab c' t' :
  shaped n w t -> accumulate self sza t c ab c' = Ok t' -> shaped n w t'.
Proof.
  unfold accumulate. intros Ht.
  destruct (getabs self c) as [a|e]; simpl; [|discriminate].
  apply iadd_outer_shaped; [exact Ht|apply getam_length].
Qed.

Lemma accumulate_split t c ab c' :
  shaped n w t ->
  accumulate self sza t c ab c' =
  (m <- accumulate self sza (zeros n w) c ab c' ;; Ok (madd t m)).
Proof.
  unfold accumulate. intros Ht.
  destruct (getabs self c) as [a|e]; simpl; [|reflexivity].
  apply iadd_outer_split; [exact Ht|apply getam_length].
Qed.

End Accumulate.

(* ----------------------------------------------------------------- *)
(** ** [_optical_depth] is the accumulator over the instance's selection *)

Lemma accumulator_app self pp0 sza S1 S2 t :
  accumulator self pp0 sza (S1 ++ S2) t =
  (t' <- accumulator self pp0 sza S1 t ;; accumulator self pp0 sza S2 t').
Proof.
  revert t; induction S1 as [|s S1 IH]; intros t; simpl; [reflexivity|].
  rewrite bind_assoc. apply bind_ext. intros a _. apply IH.
Qed.

Lemma filter_step self pp0 sza s S t (k : matrix -> result matrix) :
  (forall t', k t' = accumulator self pp0 sza (filter (chosen self) S) t') ->
  bind (if chosen self s then term self pp0 sza s t else Ok t) k =
  accumulator self pp0 sza (filter (chosen self) (s :: S)) t.
Proof.
  intros Hk. simpl filter. destruct (chosen self s); simpl.
  - apply bind_ext. intros a _. apply Hk.
  - apply Hk.
Qed.

Lemma chosen_umg self s :
  is_trace s = false -> chosen self s = selected self (name s).
Proof. unfold chosen. intros ->. simpl. apply andb_true_r. Qed.

Ltac peel_species :=
  lazymatch goal with
  | |- accumulator ?self ?pp0 ?sza (filter _ (?s :: ?S)) ?t = _ =>
      rewrite <- (filter_step self pp0 sza s S t
                    (accumulator self pp0 sza (filter (chosen self) S)))
        by reflexivity;
      rewrite (chosen_umg self s) by reflexivity;
      apply bind_ext; intros ? _
  end.

Lemma optical_depth_accumulates self pp0 sza :
  _optical_depth self pp0 sza =
  accumulator self pp0 sza (selection self)
              (zeros (length sza) (length (wvl_arr self))).
Proof.
  unfold _optical_depth, selection, all_species.
  replace 2.4480 with 2.448 by lra.
  replace (0 + (tair self + 273.15) / 273.15) with (tt0 (tair self))
    by (unfold tt0; lra).
  cbv zeta. symmetry.
  do 7 peel_species.
  simpl filter. unfold chosen. simpl name. simpl is_trace. simpl negb.
  simpl orb.
  destruct (with_trace_gases self), (selected self "NH3");
    cbn [andb accumulator]; rewrite ?bind_Ok_r; reflexivity.
Qed.

(* ----------------------------------------------------------------- *)
(** ** Which species an instance selects *)

Lemma selection_all tair co2 flag wvl tables am :
  selection (mkUMG tair co2 flag "ALL" wvl tables am) =
  filter (fun s => negb (is_trace s) || flag) all_species.
Proof. destruct flag; reflexivity. Qed.

Lemma selection_single s tair co2 flag wvl tables am :
  selection (mkUMG tair co2 flag (name s) wvl tables am) =
  if negb (is_trace s) || flag then [s] else [].
Proof. destruct s, flag; reflexivity. Qed.

Lemma selected_unmatched self g :
  target_gas self <> g -> target_gas self <> "ALL" -> selected self g = false.
Proof.
  unfold selected. intros Hg Hall.
  apply String.eqb_neq in Hg, Hall. now rewrite Hg, Hall.
Qed.

(** A target that is neither ['ALL'] nor one of the eight gases selects
    nothing. *)
Lemma selection_unmatched self :
  ~ In (target_gas self) ("ALL" :: gases) -> selection self = [].
Proof.
  intros H. unfold selection, all_species, chosen. simpl filter.
  assert (Hs : forall g, In g gases -> selected self g = false).
  { intros g Hg. apply selected_unmatched.
    - intros E. apply H. right. now rewrite E.
    - intros E. apply H. left. now rewrite E. }
  simpl name.
  rewrite !Hs by (unfold gases; simpl; tauto).
  reflexivity.
Qed.

(* ----------------------------------------------------------------- *)
(** ** Closed form of one species' term *)

Lemma row_add_zero_closed (m : R) (r : list R) :
  zipWith (fun x a => x + a * m) (repeat 0 (length r)) r =
  map (fun a => a * m) r.
Proof.
  induction r as [|a r IH]; simpl; [reflexivity|].
  rewrite IH. f_equal. lra.
Qed.

Lemma iadd_outer_zeros n r c :
  length c = n ->
  iadd_outer (length r) (zeros n (length r)) r c =
  Ok (map (fun m => map (fun a => a * m) r) c).
Proof.
  intros Lc. unfold iadd_outer, broadcast_cols.
  rewrite Nat.eqb_refl. simpl. apply (f_equal Ok).
  unfold zeros. subst n.
  induction c as [|m c IH]; simpl; [reflexivity|].
  rewrite IH. apply f_equal2; [apply row_add_zero_closed|reflexivity].
Qed.

Lemma term_with_closed am_of self pp0 sza s a :
  attrs self (String.append (constituent s) "abs") = Some a ->
  length a = length (wvl_arr self) ->
  term_with am_of self pp0 sza s
            (zeros (length sza) (length (wvl_arr self))) =
  Ok (map (fun z =>
        map (fun k => k * abundance s pp0 (tair self) (co2_ppm self)
                      * Airmass_from_SMARTS self z (am_of s)) a) sza).
Proof.
  intros Ha La. unfold term_with, accumulate, getabs, getattr.
  rewrite Ha. simpl bind. rewrite <- La.
  replace (length a)
    with (length (row_scale a (abundance s pp0 (tair self) (co2_ppm self))))
    by apply length_map.
  rewrite iadd_outer_zeros by apply getam_length.
  apply (f_equal Ok). unfold getam, row_scale.
  rewrite map_map. apply map_ext. intros z.
  rewrite map_map. reflexivity.
Qed.

(** Selecting one species by name computes exactly that species' term. *)
Lemma optical_depth_single s tair co2 wvl tables am pp0 sza :
  _optical_depth (mkUMG tair co2 true (name s) wvl tables am) pp0 sza =
  term (mkUMG tair co2 true (name s) wvl tables am) pp0 sza s
       (zeros (length sza) (length wvl)).
Proof.
  rewrite optical_depth_accumulates, selection_single.
  rewrite orb_true_r. simpl. apply bind_Ok_r.
Qed.

(** The running total of the accumulator is the sum of the terms each
    species leaves in a zero array. *)
Lemma accumulator_sum self pp0 sza S t :
  shaped (length sza) (length (wvl_arr self)) t ->
  accumulator self pp0 sza S t =
  (ms <- mapM (fun s => term self pp0 sza s
                          (zeros (length sza) (length (wvl_arr self)))) S ;;
   Ok (fold_left madd ms t)).
Proof.
  revert t. induction S as [|s S IH]; intros t Ht; simpl; [reflexivity|].
  unfold term, term_with at 1. rewrite accumulate_split by exact Ht.
  fold (term_with airmass_constituent self pp0 sza s
          (zeros (length sza) (length (wvl_arr self)))).
  destruct (term_with airmass_constituent self pp0 sza s
              (zeros (length sza) (length (wvl_arr self)))) as [m|e] eqn:E;
    simpl; [|reflexivity].
  rewrite IH.
  - destruct (mapM _ S); reflexivity.
  - apply madd_shaped; [exact Ht|].
    eapply accumulate_shaped; [apply zeros_shaped|exact E].
Qed.

(* ================================================================= *)
(** * The optical depth of [SingleGasUMG] *)

(** C1 -- additive decomposability.  With the trace-gas flag set, the
    optical depth computed for [target_gas = 'ALL'] is the sum, entry by
    entry, of the optical depths computed for each of the eight gases on
    their own; if a table is missing or ill-shaped, both computations stop
    with the same exception.  The equality is exact in real arithmetic. *)
Theorem optical_depth_additive tair co2 wvl tables am pp0 sza :
  0 < pp0 ->
  _optical_depth (mkUMG tair co2 true "ALL" wvl tables am) pp0 sza =
  (taus <- mapM (fun g =>
             _optical_depth (mkUMG tair co2 true g wvl tables am) pp0 sza)
           gases ;;
   Ok (msum (length sza) (length wvl) taus)).
Proof.
  intros _.
  rewrite optical_depth_accumulates, selection_all.
  rewrite accumulator_sum by apply zeros_shaped.
  change gases with (map name all_species). rewrite mapM_map.
  rewrite (mapM_ext
             (fun s => _optical_depth
                         (mkUMG tair co2 true (name s) wvl tables am) pp0 sza)
             (fun s => term (mkUMG tair co2 true "ALL" wvl tables am) pp0 sza s
                         (zeros (length sza) (length wvl)))).
  - reflexivity.
  - intros s _. apply optical_depth_single.
Qed.

Lemma optical_depth_additive_witness :
  0 < 1 /\
  _optical_depth
    (mkUMG 15 415 true "ALL" [760] (fun _ => Some [1]) (fun _ _ => 1))
    1 [30] =
  (taus <- mapM (fun g =>
             _optical_depth
               (mkUMG 15 415 true g [760] (fun _ => Some [1]) (fun _ _ => 1))
               1 [30])
           gases ;;
   Ok (msum 1 1 taus)).
Proof.
  split; [lra|].
  apply (optical_depth_additive 15 415 [760] (fun _ => Some [1])
           (fun _ _ => 1) 1 [30]).
  lra.
Defined.

Lemma mapM_Ok {A B} (f : A -> result B) (g : A -> B) (l : list A) :
  (forall x, In x l -> f x = Ok (g x)) -> mapM f l = Ok (map g l).
Proof.
  induction l as [|x l IH]; intros H; simpl; [reflexivity|].
  rewrite (H x (or_introl eq_refl)). simpl.
  rewrite IH; [reflexivity|]. intros y Hy. apply H. now right.
Qed.

Lemma Rpower_pos x y : 0 < Rpower x y.
Proof. unfold Rpower. apply exp_pos. Qed.

(** Every column abundance is positive on the physical domain. *)
Lemma abundance_pos s pp0 temperature_C co2 :
  0 < pp0 -> 0 < co2 -> 0 < abundance s pp0 temperature_C co2.
Proof.
  intros Hp Hc.
  assert (HN : 0 < N_L ^ 2) by (apply pow_lt; unfold N_L; lra).
  destruct s; cbv beta iota zeta delta [abundance];
    repeat first
      [ exact HN
      | apply Rpower_pos
      | apply exp_pos
      | lra
      | apply Rinv_0_lt_compat
      | apply Rmult_lt_0_compat ].
Qed.

(** C4 -- the abundance formulas.  When every absorption table is present
    and aligned with the wavelength grid, the optical depth computed for
    one gas is its table times the closed-form abundance of section 4.2
    ([abundance], with the constants as printed there and
    [tt0 = (tair + 273.15) / 273.15], [N_L = NLOSCHMIDT = 2.6868e19]) times
    the airmass; the optical depth for ['ALL'] is the sum of these eight
    arrays. *)
Theorem umg_abundance_formulas tair co2 wvl tables am pp0 sza
    (a : species -> list R) :
  0 < pp0 ->
  (forall s, tables (String.append (constituent s) "abs") = Some (a s) /\
             length (a s) = length wvl) ->
  (forall s,
     _optical_depth (mkUMG tair co2 true (name s) wvl tables am) pp0 sza =
     Ok (species_term s (airmass_constituent s) tair co2 am pp0 sza (a s)))
  /\
  _optical_depth (mkUMG tair co2 true "ALL" wvl tables am) pp0 sza =
  Ok (msum (length sza) (length wvl)
        (map (fun s =>
                species_term s (airmass_constituent s) tair co2 am pp0 sza
                             (a s))
             all_species))
  /\ NLOSCHMIDT = N_L.
Proof.
  intros _ Htab.
  assert (Hterm : forall s g,
    term (mkUMG tair co2 true g wvl tables am) pp0 sza s
         (zeros (length sza) (length wvl)) =
    Ok (species_term s (airmass_constituent s) tair co2 am pp0 sza (a s))).
  { intros s g. destruct (Htab s) as [Hs Ls].
    apply (term_with_closed airmass_constituent
             (mkUMG tair co2 true g wvl tables am) pp0 sza s (a s) Hs Ls). }
  split; [|split].
  - intros s. rewrite optical_depth_single. apply Hterm.
  - rewrite optical_depth_accumulates, selection_all.
    rewrite accumulator_sum by apply zeros_shaped.
    rewrite (mapM_Ok _ (fun s => species_term s (airmass_constituent s)
                                   tair co2 am pp0 sza (a s))).
    + reflexivity.
    + intros s _. apply Hterm.
  - reflexivity.
Qed.

Lemma umg_abundance_formulas_witness :
  _optical_depth
    (mkUMG 15 415 true "O2" [760] (fun _ => Some [2]) (fun _ _ => 1))
    1 [30] =
  Ok [[2 * (1.67766e5 * 1) * 1]].
Proof.
  refine (proj1 (umg_abundance_formulas 15 415 [760] (fun _ => Some [2])
                   (fun _ _ => 1) 1 [30] (fun _ => [2]) _ _) O2).
  - lra.
  - intros s. split; reflexivity.
Defined.

(* ----------------------------------------------------------------- *)
(** ** Airmass dispatch *)

Lemma term_airmass_ext am_of self am' pp0 sza s t :
  (forall z, am' z (am_of s) = Airmass_from_SMARTS self z (am_of s)) ->
  term_with am_of (with_airmass self am') pp0 sza s t =
  term_with am_of self pp0 sza s t.
Proof.
  intros H. unfold term_with, accumulate, getam. simpl.
  rewrite (map_ext _ _ H). reflexivity.
Qed.

Lemma accumulator_airmass_ext self am' pp0 sza S t :
  (forall s z, In s S ->
     am' z (airmass_constituent s) =
     Airmass_from_SMARTS self z (airmass_constituent s)) ->
  accumulator (with_airmass self am') pp0 sza S t =
  accumulator self pp0 sza S t.
Proof.
  revert t. induction S as [|s S IH]; intros t H; simpl; [reflexivity|].
  unfold term. rewrite term_airmass_ext by (intros z; apply H; now left).
  apply bind_ext. intros t' _. apply IH.
  intros s' z Hs'. apply H. now right.
Qed.

(** C2, as stated, fails for O4: the code multiplies the O4 term by the
    airmass of ['o2'].  At [o4_probe] the optical depth is the O4 abundance
    times the ['o2'] airmass 1, not times the ['o4'] airmass 2. *)
Lemma o4_term_not_own_airmass :
  _optical_depth o4_probe 1 [0] = Ok [[1 * abundance O4 1 0 415 * 1]] /\
  term_with constituent o4_probe 1 [0] O4 (zeros 1 1) =
    Ok [[1 * abundance O4 1 0 415 * 2]] /\
  _optical_depth o4_probe 1 [0] <>
    term_with constituent o4_probe 1 [0] O4 (zeros 1 1).
Proof.
  assert (H1 : _optical_depth o4_probe 1 [0] =
               Ok [[1 * abundance O4 1 0 415 * 1]]).
  { unfold o4_probe. rewrite (optical_depth_single O4).
    apply (term_with_closed airmass_constituent
             (mkUMG 0 415 true "O4" [577] (fun _ => Some [1])
                    (fun _ c => if c =? "o4" then 2 else 1))
             1 [0] O4 [1]); reflexivity. }
  assert (H2 : term_with constituent o4_probe 1 [0] O4 (zeros 1 1) =
               Ok [[1 * abundance O4 1 0 415 * 2]]).
  { apply (term_with_closed constituent o4_probe 1 [0] O4 [1]);
      reflexivity. }
  split; [exact H1|split; [exact H2|]].
  rewrite H1, H2. clear H1 H2.
  pose proof (abundance_pos O4 1 0 415 ltac:(lra) ltac:(lra)) as Hpos.
  set (x := abundance O4 1 0 415) in *. clearbody x.
  intros E. injection E as E. lra.
Qed.

(** C2, amended -- per-constituent airmass.  The term of each gas is
    multiplied by the airmass of that gas's own constituent, except that
    the O4 term is multiplied by the airmass of ['o2']; and in every mode
    the optical depth depends on the airmass method only through the
    constituents so used, so the airmass of no other constituent enters. *)
Theorem airmass_dispatch s tair co2 wvl tables am pp0 sza a :
  tables (String.append (constituent s) "abs") = Some a ->
  length a = length wvl ->
  let key := match s with O4 => constituent O2 | _ => constituent s end in
  _optical_depth (mkUMG tair co2 true (name s) wvl tables am) pp0 sza =
    Ok (species_term s key tair co2 am pp0 sza a)
  /\
  forall (self : SingleGasUMG) (am' : R -> string -> R),
    (forall s' z,
       am' z (match s' with O4 => constituent O2 | _ => constituent s' end) =
       Airmass_from_SMARTS self z
         (match s' with O4 => constituent O2 | _ => constituent s' end)) ->
    _optical_depth (with_airmass self am') pp0 sza =
    _optical_depth self pp0 sza.
Proof.
  intros Ha La key. split.
  - rewrite optical_depth_single.
    replace key with (airmass_constituent s) by (destruct s; reflexivity).
    apply (term_with_closed airmass_constituent
             (mkUMG tair co2 true (name s) wvl tables am) pp0 sza s a Ha La).
  - intros self am' H.
    rewrite !optical_depth_accumulates.
    change (selection (with_airmass self am')) with (selection self).
    apply (accumulator_airmass_ext self am' pp0 sza (selection self)).
    intros s' z _.
    replace (airmass_constituent s')
      with (match s' with O4 => constituent O2 | _ => constituent s' end)
      by (destruct s'; reflexivity).
    apply H.
Qed.

Lemma airmass_dispatch_witness :
  _optical_depth o4_probe 1 [0] =
  Ok (species_term O4 "o2" 0 415 (fun _ c => if c =? "o4" then 2 else 1)
        1 [0] [1]).
Proof.
  refine (proj1 (airmass_dispatch O4 0 415 [577] (fun _ => Some [1])
                   (fun _ c => if c =? "o4" then 2 else 1) 1 [0] [1] _ _)).
  - reflexivity.
  - reflexivity.
Defined.

(* ----------------------------------------------------------------- *)
(** ** Targets that select nothing *)

Lemma optical_depth_unmatched self pp0 sza :
  ~ In (target_gas self) ("ALL" :: gases) ->
  _optical_depth self pp0 sza =
  Ok (zeros (length sza) (length (wvl_arr self))).
Proof.
  intros H. rewrite optical_depth_accumulates, selection_unmatched by exact H.
  reflexivity.
Qed.

(** C3, as stated, fails: an identifier outside the enumerated set is not
    rejected.  At [unknown_probe] the call returns the zero array. *)
Lemma unknown_species_not_rejected :
  ~ In (target_gas unknown_probe) ("ALL" :: gases) /\
  _optical_depth unknown_probe 1 [30] = Ok [[0]] /\
  ~ raises (_optical_depth unknown_probe 1 [30]).
Proof.
  assert (H : _optical_depth unknown_probe 1 [30] = Ok [[0]])
    by reflexivity.
  split; [|split].
  - simpl. intuition discriminate.
  - exact H.
  - rewrite H. intros [e He]. discriminate.
Qed.

(** C3, amended -- a target that is neither ['ALL'] nor one of the eight
    gases is not rejected: the call raises nothing and returns the zero
    optical depth of shape [(len(sza), len(wvl_arr))]. *)
Theorem unknown_species_gives_zeros self pp0 sza :
  ~ In (target_gas self) ("ALL" :: gases) ->
  _optical_depth self pp0 sza =
    Ok (zeros (length sza) (length (wvl_arr self))) /\
  ~ raises (_optical_depth self pp0 sza).
Proof.
  intros H. pose proof (optical_depth_unmatched self pp0 sza H) as E.
  split; [exact E|].
  rewrite E. intros [e He]. discriminate.
Qed.

Lemma unknown_species_gives_zeros_witness :
  ~ In (target_gas unknown_probe) ("ALL" :: gases) /\
  _optical_depth unknown_probe 1 [30] = Ok (zeros 1 1).
Proof.
  assert (H : ~ In (target_gas unknown_probe) ("ALL" :: gases))
    by (simpl; intuition discriminate).
  split; [exact H|].
  exact (proj1 (unknown_species_gives_zeros unknown_probe 1 [30] H)).
Defined.

(** By contrast a selected gas whose table is missing stops the call: the
    [getattr] failure reaches the caller. *)
Example missing_table_propagates :
  _optical_depth
    (mkUMG 15 415 true "ALL" [760] (fun _ => None) (fun _ _ => 1)) 1 [30] =
  Raise (AttributeError "o2abs").
Proof. reflexivity. Qed.

Lemma beer_lambert_zeros n w :
  beer_lambert (zeros n w) = repeat (repeat 1 w) n.
Proof.
  unfold beer_lambert, zeros.
  induction n as [|n IH]; simpl; [reflexivity|].
  rewrite IH. f_equal.
  clear. induction w as [|w IH]; simpl; [reflexivity|].
  rewrite IH. f_equal. rewrite Ropp_0. apply exp_0.
Qed.

(** C10 -- a selection that matches no branch is silent.  For
    [target_gas = 'NH3'] without trace gases, and for any target that is
    neither ['ALL'] nor one of the eight gases, the call raises nothing and
    returns the zero optical depth, whose Beer-Lambert transmittance is 1
    at every zenith angle and wavelength. *)
Theorem excluded_selection_is_silent self pp0 sza :
  (target_gas self = "NH3" /\ with_trace_gases self = false) \/
  ~ In (target_gas self) ("ALL" :: gases) ->
  _optical_depth self pp0 sza =
    Ok (zeros (length sza) (length (wvl_arr self))) /\
  beer_lambert (zeros (length sza) (length (wvl_arr self))) =
    repeat (repeat 1 (length (wvl_arr self))) (length sza).
Proof.
  intros H. split; [|apply beer_lambert_zeros].
  destruct H as [[Ht Hf]|H].
  - rewrite optical_depth_accumulates.
    destruct self as [ta co fl tg wv tb am]. simpl in Ht, Hf. subst tg fl.
    reflexivity.
  - apply optical_depth_unmatched. exact H.
Qed.

Lemma excluded_selection_is_silent_witness :
  _optical_depth
    (mkUMG 15 415 false "NH3" [760; 761] (fun _ => None) (fun _ _ => 1))
    1 [30] = Ok [[0; 0]] /\
  beer_lambert [[0; 0]] = [[1; 1]].
Proof.
  apply (excluded_selection_is_silent
           (mkUMG 15 415 false "NH3" [760; 761] (fun _ => None)
                  (fun _ _ => 1)) 1 [30]).
  left. split; reflexivity.
Defined.

(* ----------------------------------------------------------------- *)
(** ** The trace-gas flag *)

Lemma selection_flag self :
  selection self =
  selection (with_flag self false) ++
  (if with_trace_gases self && selected self "NH3" then [NH3] else []).
Proof.
  unfold selection.
  change all_species with ([O2; CH4; CO; N2O; CO2; N2; O4] ++ [NH3]).
  rewrite !filter_app.
  assert (E : filter (chosen (with_flag self false)) [NH3] = []).
  { unfold chosen. cbn [filter name is_trace negb orb].
    cbn [with_trace_gases with_flag]. now rewrite andb_false_r. }
  rewrite E, app_nil_r. apply (f_equal2 (@app species)).
  - apply filter_ext_in. intros s Hs.
    destruct s; try reflexivity. simpl in Hs. intuition discriminate.
  - unfold chosen. cbn [filter name is_trace negb orb].
    now rewrite andb_comm.
Qed.

Lemma filter_twice {A} (f g : A -> bool) (l : list A) :
  filter g (filter f l) = filter (fun x => f x && g x) l.
Proof.
  induction l as [|x l IH]; simpl; [reflexivity|].
  destruct (f x); simpl; [|exact IH].
  destruct (g x); now rewrite IH.
Qed.

Lemma selection_without_trace self :
  selection (with_flag self false) =
  filter (fun s => negb (species_eqb s NH3)) (selection (with_flag self true)).
Proof.
  unfold selection. rewrite filter_twice.
  apply filter_ext. intros s. unfold chosen.
  change (selected (with_flag self false) (name s))
    with (selected self (name s)).
  change (selected (with_flag self true) (name s))
    with (selected self (name s)).
  cbn [with_trace_gases with_flag].
  destruct s; cbn [is_trace negb orb species_eqb];
    destruct (selected self _); reflexivity.
Qed.

Lemma accumulator_flag self b pp0 sza S t :
  accumulator (with_flag self b) pp0 sza S t = accumulator self pp0 sza S t.
Proof.
  revert t. induction S as [|s S IH]; intros t; simpl; [reflexivity|].
  apply bind_ext. intros t' _. apply IH.
Qed.

(** C6, as stated, fails in the "if" direction: with the flag set and
    [target_gas = 'O2'] the NH3 term is not accumulated.  At [nh3_probe]
    the output is the one obtained with the flag unset, and differs from
    that output with the (positive) NH3 term added. *)
Lemma trace_flag_alone_does_not_add_nh3 :
  with_trace_gases nh3_probe = true /\
  _optical_depth nh3_probe 1 [30] =
    _optical_depth (with_flag nh3_probe false) 1 [30] /\
  _optical_depth nh3_probe 1 [30] <>
    (t <- _optical_depth (with_flag nh3_probe false) 1 [30] ;;
     term nh3_probe 1 [30] NH3 t).
Proof.
  assert (H0 : forall b,
            _optical_depth (with_flag nh3_probe b) 1 [30] =
            Ok [[1 * abundance O2 1 15 415 * 1]]).
  { intros b. rewrite optical_depth_accumulates.
    replace (selection (with_flag nh3_probe b)) with [O2]
      by (destruct b; reflexivity).
    cbn [accumulator]. rewrite bind_Ok_r.
    apply (term_with_closed airmass_constituent (with_flag nh3_probe b)
             1 [30] O2 [1]); reflexivity. }
  assert (H1 : _optical_depth nh3_probe 1 [30] =
               Ok [[1 * abundance O2 1 15 415 * 1]]) by apply (H0 true).
  split; [reflexivity|split].
  - rewrite H1. symmetry. apply (H0 false).
  - rewrite H1, (H0 false), bind_Ok_l.
    assert (H2 : term nh3_probe 1 [30] NH3 [[1 * abundance O2 1 15 415 * 1]] =
                 Ok [[1 * abundance O2 1 15 415 * 1
                      + 1 * abundance NH3 1 15 415 * 1]]) by reflexivity.
    rewrite H2. clear H0 H1 H2.
    pose proof (abundance_pos NH3 1 15 415 ltac:(lra) ltac:(lra)) as Hpos.
    set (x := abundance O2 1 15 415) in *.
    set (y := abundance NH3 1 15 415) in *. clearbody x y.
    intros E. injection E as E. lra.
Qed.

(** C6, amended -- trace-gas gating.  The NH3 term is accumulated if and
    only if the flag is set and the target is ['NH3'] or ['ALL']: the
    output is the output with the flag unset, followed by the NH3 term
    exactly in that case.  With the flag unset the output is that of the
    accumulator over the species selected with the flag set, NH3
    removed. *)
Theorem trace_gas_gating self pp0 sza :
  _optical_depth self pp0 sza =
    (t <- _optical_depth (with_flag self false) pp0 sza ;;
     if with_trace_gases self && selected self "NH3"
     then term self pp0 sza NH3 t
     else Ok t)
  /\
  _optical_depth (with_flag self false) pp0 sza =
    accumulator self pp0 sza
      (filter (fun s => negb (species_eqb s NH3))
              (selection (with_flag self true)))
      (zeros (length sza) (length (wvl_arr self))).
Proof.
  split.
  - rewrite !optical_depth_accumulates.
    rewrite (selection_flag self), accumulator_app, accumulator_flag.
    apply bind_ext. intros t _.
    destruct (with_trace_gases self && selected self "NH3"); simpl;
      [apply bind_Ok_r|reflexivity].
  - rewrite optical_depth_accumulates, accumulator_flag.
    rewrite selection_without_trace. reflexivity.
Qed.

(* ----------------------------------------------------------------- *)
(** ** Temperature *)

Lemma term_tair self t' pp0 sza s t :
  s <> O4 ->
  term (with_tair self t') pp0 sza s t = term self pp0 sza s t.
Proof.
  intros Hs. destruct s; try reflexivity. now contradiction Hs.
Qed.

Lemma accumulator_tair self t' pp0 sza S t :
  ~ In O4 S ->
  accumulator (with_tair self t') pp0 sza S t = accumulator self pp0 sza S t.
Proof.
  revert t. induction S as [|s S IH]; intros t H; simpl; [reflexivity|].
  rewrite term_tair by (intros E; apply H; now left).
  apply bind_ext. intros a _. apply IH. intros Hin. apply H. now right.
Qed.

Lemma selection_lacks self s :
  selected self (name s) = false -> ~ In s (selection self).
Proof.
  unfold selection. intros H Hin. apply filter_In in Hin.
  destruct Hin as [_ Hc]. unfold chosen in Hc. rewrite H in Hc.
  discriminate.
Qed.

Lemma mapM_app {A B} (f : A -> result B) (l1 l2 : list A) :
  mapM f (l1 ++ l2) =
  (a <- mapM f l1 ;; b <- mapM f l2 ;; Ok (a ++ b)).
Proof.
  induction l1 as [|x l1 IH]; simpl.
  - destruct (mapM f l2); reflexivity.
  - destruct (f x) as [y|e]; simpl; [|reflexivity].
    rewrite IH. destruct (mapM f l1) as [a|e]; simpl; [|reflexivity].
    destruct (mapM f l2); reflexivity.
Qed.

Lemma mapM_Forall {A B} (P : B -> Prop) (f : A -> result B) l ys :
  (forall x y, f x = Ok y -> P y) -> mapM f l = Ok ys -> Forall P ys.
Proof.
  intros Hf. revert ys. induction l as [|x l IH]; simpl; intros ys H.
  - inversion H. constructor.
  - destruct (f x) as [y|e] eqn:E; simpl in H; [|discriminate].
    destruct (mapM f l) as [ys'|e]; simpl in H; [|discriminate].
    inversion H. constructor; [eapply Hf; exact E|now apply IH].
Qed.

Lemma row_add_zero_r (r : list R) :
  zipWith Rplus r (repeat 0 (length r)) = r.
Proof.
  induction r as [|x r IH]; simpl; [reflexivity|].
  rewrite IH. apply f_equal2; [lra|reflexivity].
Qed.

Lemma madd_zeros_r n w m : shaped n w m -> madd m (zeros n w) = m.
Proof.
  unfold shaped, madd, zeros. intros [L F]. subst n.
  induction F as [|r m Hr F IH]; simpl; [reflexivity|].
  rewrite IH. apply f_equal2; [|reflexivity].
  rewrite <- Hr. apply row_add_zero_r.
Qed.

Lemma fold_madd_shaped n w ms t :
  Forall (shaped n w) ms -> shaped n w t -> shaped n w (fold_left madd ms t).
Proof.
  intros F. revert t. induction F as [|m ms Hm F IH]; intros t Ht; simpl;
    [exact Ht|].
  apply IH. apply madd_shaped; assumption.
Qed.

(** A single-gas run, under either flag: the gas's own term, or nothing
    for NH3 when the flag is unset. *)
Lemma optical_depth_single_flag s tair co2 flag wvl tables am pp0 sza :
  _optical_depth (mkUMG tair co2 flag (name s) wvl tables am) pp0 sza =
  if negb (is_trace s) || flag
  then term (mkUMG tair co2 flag (name s) wvl tables am) pp0 sza s
            (zeros (length sza) (length wvl))
  else Ok (zeros (length sza) (length wvl)).
Proof.
  rewrite optical_depth_accumulates, selection_single.
  destruct (negb (is_trace s) || flag); simpl; [apply bind_Ok_r|reflexivity].
Qed.

(** In the term of a gas, the temperature of the instance matters to O4
    alone; neither the target nor the flag matters to any. *)
Lemma term_at_own_temperature tair tair' co2 flag wvl tables am pp0 sza s t :
  term (mkUMG (if String.eqb (name s) "O4" then tair' else tair)
              co2 flag (name s) wvl tables am) pp0 sza s t =
  term (mkUMG tair' co2 flag "ALL" wvl tables am) pp0 sza s t.
Proof. destruct s; reflexivity. Qed.

(** C9 -- temperature enters only through O4.  Take two calls that
    differ in [tair] alone.  When the target is neither ['O4'] nor
    ['ALL'], so that O4 is not selected, the two outputs are the same.
    When the target is ['ALL'], the contribution of every gas other than
    O4 to the run at [tair'] is the one that gas makes at [tair]: the
    output is the sum of the O4 run at [tair'] and of the single-gas runs
    of the other gases at [tair]; a missing or ill-shaped table stops
    both sides with the same exception.  Both hold under either setting
    of the trace-gas flag. *)
Theorem temperature_only_in_o4 tair tair' co2 flag wvl tables am pp0 sza :
  (forall target, target <> "O4" -> target <> "ALL" ->
     _optical_depth (mkUMG tair' co2 flag target wvl tables am) pp0 sza =
     _optical_depth (mkUMG tair co2 flag target wvl tables am) pp0 sza)
  /\
  _optical_depth (mkUMG tair' co2 flag "ALL" wvl tables am) pp0 sza =
  (taus <- mapM (fun g =>
             _optical_depth
               (mkUMG (if String.eqb g "O4" then tair' else tair)
                      co2 flag g wvl tables am) pp0 sza)
           gases ;;
   Ok (msum (length sza) (length wvl) taus)).
Proof.
  split.
  - intros target H4 Hall.
    rewrite !optical_depth_accumulates.
    change (mkUMG tair' co2 flag target wvl tables am)
      with (with_tair (mkUMG tair co2 flag target wvl tables am) tair').
    change (selection (with_tair (mkUMG tair co2 flag target wvl tables am)
                                 tair'))
      with (selection (mkUMG tair co2 flag target wvl tables am)).
    apply accumulator_tair. apply selection_lacks.
    apply selected_unmatched; assumption.
  - rewrite optical_depth_accumulates, selection_all.
    rewrite accumulator_sum by apply zeros_shaped.
    change gases with (map name all_species). rewrite mapM_map.
    cbn [GasAnalysis.wvl_arr].
    set (z := zeros (length sza) (length wvl)).
    set (all := mkUMG tair' co2 flag "ALL" wvl tables am).
    rewrite (mapM_ext
               (fun s => _optical_depth
                           (mkUMG (if String.eqb (name s) "O4"
                                   then tair' else tair)
                                  co2 flag (name s) wvl tables am) pp0 sza)
               (fun s => if negb (is_trace s) || flag
                         then term all pp0 sza s z else Ok z)).
    2:{ intros s _. rewrite optical_depth_single_flag.
        rewrite term_at_own_temperature. reflexivity. }
    destruct flag.
    + rewrite (mapM_ext
                 (fun s => if negb (is_trace s) || true
                           then term all pp0 sza s z else Ok z)
                 (fun s => term all pp0 sza s z)).
      * reflexivity.
      * intros s _. now rewrite orb_true_r.
    + change (filter (fun s => negb (is_trace s) || false) all_species)
        with [O2; CH4; CO; N2O; CO2; N2; O4].
      change all_species with ([O2; CH4; CO; N2O; CO2; N2; O4] ++ [NH3]).
      rewrite mapM_app.
      rewrite (mapM_ext
                 (fun s => if negb (is_trace s) || false
                           then term all pp0 sza s z else Ok z)
                 (fun s => term all pp0 sza s z)
                 [O2; CH4; CO; N2O; CO2; N2; O4]).
      2:{ intros s Hs. simpl in Hs.
          repeat (destruct Hs as [<-|Hs]; [reflexivity|]). contradiction. }
      destruct (mapM (fun s => term all pp0 sza s z)
                  [O2; CH4; CO; N2O; CO2; N2; O4]) as [ms|e] eqn:E;
        [|reflexivity].
      cbn [bind mapM is_trace negb orb]. apply (f_equal Ok).
      unfold msum. rewrite fold_left_app. cbn [fold_left].
      fold z. symmetry. apply madd_zeros_r.
      apply fold_madd_shaped; [|apply zeros_shaped].
      eapply mapM_Forall; [|exact E].
      intros s m Hm. unfold term, term_with in Hm.
      apply (accumulate_shaped all sza z _ _ _ m (zeros_shaped _ _) Hm).
Qed.

Lemma temperature_only_in_o4_witness :
  _optical_depth (with_tair nh3_probe (-40)) 1 [30] =
  _optical_depth nh3_probe 1 [30].
Proof.
  refine (proj1 (temperature_only_in_o4 15 (-40) 415 true [760]
                   (fun _ => Some [1]) (fun _ _ => 1) 1 [30]) "O2" _ _);
    discriminate.
Defined.

(* ================================================================= *)
(** * The trace-gas abundances *)

Lemma py_min_Rmin a b : TraceGasScript.py_min a b = Rmin a b.
Proof.
  unfold TraceGasScript.py_min, Rmin.
  destruct (Rlt_dec b a), (Rle_dec a b); lra.
Qed.

(** C5 -- NO2 and SO2 column abundances.  For a positive pressure ratio
    the script's NO2 abundance is [1e-4 * min(1.8599 + 0.18453 pp0,
    41.771 pp0)], its SO2 abundance is [1e-4 * 0.11133 * pp0^0.812 *
    exp(0.81319 + 3.0557 pp0^2 - 1.578 pp0^3)], and neither is
    negative. *)
Theorem trace_gas_abundances pp0 :
  0 < pp0 ->
  TraceGasScript.no2_abundance_at pp0 =
    1e-4 * Rmin (1.8599 + 0.18453 * pp0) (41.771 * pp0) /\
  TraceGasScript.so2_abundance_at pp0 =
    1e-4 * 0.11133 * Rpower pp0 0.812 *
    exp (0.81319 + 3.0557 * pp0 ^ 2 - 1.578 * pp0 ^ 3) /\
  0 <= TraceGasScript.no2_abundance_at pp0 /\
  0 <= TraceGasScript.so2_abundance_at pp0.
Proof.
  intros Hp.
  assert (Hno2 : TraceGasScript.no2_abundance_at pp0 =
                 1e-4 * Rmin (1.8599 + 0.18453 * pp0) (41.771 * pp0)).
  { unfold TraceGasScript.no2_abundance_at. now rewrite py_min_Rmin. }
  split; [exact Hno2|split; [reflexivity|split]].
  - rewrite Hno2.
    assert (0 < Rmin (1.8599 + 0.18453 * pp0) (41.771 * pp0))
      by (apply Rmin_glb_lt; lra).
    lra.
  - unfold TraceGasScript.so2_abundance_at.
    pose proof (Rpower_pos pp0 0.812) as H1.
    pose proof (exp_pos (0.81319 + 3.0557 * pp0 ^ 2 - 1.578 * pp0 ^ 3)) as H2.
    apply Rlt_le.
    apply Rmult_lt_0_compat; [apply Rmult_lt_0_compat; [lra|exact H1]|exact H2].
Qed.

Lemma trace_gas_abundances_witness :
  0 < TraceGasScript.pp0 /\
  TraceGasScript.no2_abundance =
    1e-4 * Rmin (1.8599 + 0.18453 * TraceGasScript.pp0)
                (41.771 * TraceGasScript.pp0).
Proof.
  assert (H : 0 < TraceGasScript.pp0)
    by (unfold TraceGasScript.pp0, TraceGasScript.p_; lra).
  split; [exact H|].
  exact (proj1 (trace_gas_abundances TraceGasScript.pp0 H)).
Defined.

(** At the script's standard pressure the ratio is 1 and the first
    argument of [min] is the smaller one. *)
Lemma no2_abundance_value : TraceGasScript.no2_abundance = 1e-4 * 2.04443.
Proof.
  unfold TraceGasScript.no2_abundance, TraceGasScript.no2_abundance_at,
    TraceGasScript.py_min, TraceGasScript.pp0, TraceGasScript.p_.
  destruct (Rlt_dec _ _); lra.
Qed.

(* ================================================================= *)
(** * The combiner *)

Import TransmissionScript.

(* ----------------------------------------------------------------- *)
(** ** Lists as grids *)

Lemma hd_nth (l : list R) : hd 0 l = nth 0 l 0.
Proof. destruct l; reflexivity. Qed.

Lemma last_nth (l : list R) : last l 0 = nth (length l - 1) l 0.
Proof.
  induction l as [|a [|b l] IH]; try reflexivity.
  change (last (a :: b :: l) 0) with (last (b :: l) 0). rewrite IH.
  simpl. now rewrite Nat.sub_0_r.
Qed.

Lemma increasing_tail a l : increasing (a :: l) -> increasing l.
Proof. destruct l as [|b l]; simpl; tauto. Qed.

Lemma increasing_nth_lt (l : list R) :
  increasing l ->
  forall i j, (i < j < length l)%nat -> nth i l 0 < nth j l 0.
Proof.
  induction l as [|a l IH]; intros Hinc i j Hij; [simpl in Hij; lia|].
  pose proof (increasing_tail a l Hinc) as Htl.
  destruct j as [|j]; [lia|].
  destruct i as [|i].
  - destruct l as [|b l]; [simpl in Hij; lia|].
    destruct Hinc as [Hab _].
    destruct j as [|j]; [exact Hab|].
    apply Rlt_trans with b; [exact Hab|].
    apply (IH Htl 0%nat (S j)). simpl in *. lia.
  - apply (IH Htl i j). simpl in Hij. lia.
Qed.

Lemma increasing_nth_le (l : list R) :
  increasing l ->
  forall i j, (i <= j < length l)%nat -> nth i l 0 <= nth j l 0.
Proof.
  intros Hinc i j Hij. destruct (Nat.eq_dec i j) as [->|Hne].
  - apply Rle_refl.
  - apply Rlt_le. apply increasing_nth_lt; [exact Hinc|lia].
Qed.

(* ----------------------------------------------------------------- *)
(** ** [np.interp] computes the clamped linear interpolant *)

(** The search stops at the interval that holds the key. *)
Lemma linear_search_bracket key a0 tl :
  ~ key < a0 ->
  let j := linear_search key tl in
  (j <= length tl)%nat /\
  nth j (a0 :: tl) 0 <= key /\
  ((j < length tl)%nat -> key < nth (S j) (a0 :: tl) 0).
Proof.
  revert a0. induction tl as [|a tl IH]; intros a0 H0; simpl.
  - repeat split; [lia|lra|lia].
  - destruct (Rle_dec a key) as [Hle|Hgt].
    + destruct (IH a ltac:(lra)) as (L & Hlo & Hhi).
      repeat split; [lia|exact Hlo|].
      intros Hj. apply Hhi. lia.
    + repeat split; [lia|lra|]. intros _. simpl. lra.
Qed.

Lemma interpolates_eq xp fp x y y' :
  interpolates xp fp x y -> y = y' -> interpolates xp fp x y'.
Proof. intros H <-. exact H. Qed.

Lemma interp_point_interpolates xp fp x :
  xp <> [] -> length fp = length xp ->
  interpolates xp fp x (interp_point xp fp x).
Proof.
  intros Hne Hlen. unfold interp_point.
  destruct (Nat.eqb (length xp) 1) eqn:E1.
  - apply Nat.eqb_eq in E1.
    destruct xp as [|a0 [|? ?]]; try discriminate. simpl hd.
    destruct (Rlt_dec x a0); [apply clamp_left; simpl; lra|].
    destruct (Rlt_dec a0 x); [apply clamp_right; simpl; lra|].
    apply clamp_left. simpl. lra.
  - unfold binary_search_with_guess.
    destruct (Rlt_dec (last xp 0) x) as [Hr|Hr];
      [apply clamp_right; lra|].
    destruct (Rlt_dec x (hd 0 xp)) as [Hl|Hl];
      [apply clamp_left; lra|].
    destruct xp as [|a0 rest]; [contradiction|]. simpl hd in Hl.
    cbn [List.tl].
    destruct (linear_search_bracket x a0 rest Hl) as (L & Hlo & Hhi).
    set (j := linear_search x rest) in *.
    change (length (a0 :: rest) - 1)%nat with (S (length rest) - 1)%nat.
    replace (S (length rest) - 1)%nat with (length rest) by lia.
    destruct (Nat.eqb j (length rest)) eqn:Ej.
    + apply Nat.eqb_eq in Ej.
      assert (Hlast : forall l : list R,
                length l = S (length rest) ->
                last l 0 = nth j l 0).
      { intros l Hl'. rewrite last_nth, Hl', Ej. f_equal. lia. }
      eapply interpolates_eq;
        [apply clamp_right; rewrite (Hlast (a0 :: rest) eq_refl); lra|].
      apply Hlast. exact Hlen.
    + apply Nat.eqb_neq in Ej.
      assert (Hj : (j < length rest)%nat) by lia.
      specialize (Hhi Hj).
      destruct (Req_dec_T (nth j (a0 :: rest) 0) x) as [Heq|Hneq].
      * eapply interpolates_eq;
          [apply (on_chord (a0 :: rest) fp x j); [simpl; lia|lra]|].
        rewrite Heq. unfold Rdiv. ring.
      * eapply interpolates_eq;
          [apply (on_chord (a0 :: rest) fp x j); [simpl; lia|lra]|].
        replace (j + 1)%nat with (S j) by lia. unfold Rdiv. ring.
Qed.

(** On an increasing grid the interpolant is a function of the target
    wavelength: the three cases agree wherever they overlap. *)
Lemma interpolates_unique xp fp x y1 y2 :
  xp <> [] -> increasing xp -> length fp = length xp ->
  interpolates xp fp x y1 -> interpolates xp fp x y2 -> y1 = y2.
Proof.
  intros Hne Hinc Hlen H1 H2.
  assert (Hn : (0 < length xp)%nat)
    by (destruct xp; [contradiction|simpl; lia]).
  pose proof (increasing_nth_lt xp Hinc) as Hlt.
  pose proof (increasing_nth_le xp Hinc) as Hle.
  assert (chord_lo : forall j,
            (S j < length xp)%nat -> x = nth j xp 0 ->
            nth j fp 0 +
            (x - nth j xp 0) * (nth (S j) fp 0 - nth j fp 0)
            / (nth (S j) xp 0 - nth j xp 0) = nth j fp 0).
  { intros j _ ->. unfold Rdiv. ring. }
  assert (chord_hi : forall j,
            (S j < length xp)%nat -> x = nth (S j) xp 0 ->
            nth j fp 0 +
            (x - nth j xp 0) * (nth (S j) fp 0 - nth j fp 0)
            / (nth (S j) xp 0 - nth j xp 0) = nth (S j) fp 0).
  { intros j Hj ->.
    pose proof (Hlt j (S j) ltac:(lia)). field. lra. }
  assert (ends : (length xp = 1)%nat -> hd 0 fp = last fp 0).
  { intros E. rewrite E in Hlen.
    destruct fp as [|b [|? ?]]; try discriminate. reflexivity. }
  assert (left_chord : forall j,
            x <= hd 0 xp -> (S j < length xp)%nat ->
            nth j xp 0 <= x <= nth (S j) xp 0 ->
            hd 0 fp =
            nth j fp 0 +
            (x - nth j xp 0) * (nth (S j) fp 0 - nth j fp 0)
            / (nth (S j) xp 0 - nth j xp 0)).
  { intros j Hl Hj Hx. rewrite hd_nth in Hl.
    destruct (Nat.eq_dec j 0) as [->|Hj0].
    - rewrite chord_lo by (try lia; lra). apply hd_nth.
    - pose proof (Hlt 0%nat j ltac:(lia)). lra. }
  assert (right_chord : forall j,
            last xp 0 <= x -> (S j < length xp)%nat ->
            nth j xp 0 <= x <= nth (S j) xp 0 ->
            last fp 0 =
            nth j fp 0 +
            (x - nth j xp 0) * (nth (S j) fp 0 - nth j fp 0)
            / (nth (S j) xp 0 - nth j xp 0)).
  { intros j Hr Hj Hx. rewrite last_nth in Hr.
    destruct (Nat.eq_dec (S j) (length xp - 1)) as [E|E].
    - rewrite chord_hi by (try lia; rewrite <- E in Hr; lra).
      rewrite last_nth, Hlen. now rewrite E.
    - pose proof (Hlt (S j) (length xp - 1)%nat ltac:(lia)). lra. }
  assert (chords : forall j k,
            (j < k)%nat -> (S k < length xp)%nat ->
            nth j xp 0 <= x <= nth (S j) xp 0 ->
            nth k xp 0 <= x <= nth (S k) xp 0 ->
            nth j fp 0 +
            (x - nth j xp 0) * (nth (S j) fp 0 - nth j fp 0)
            / (nth (S j) xp 0 - nth j xp 0) =
            nth k fp 0 +
            (x - nth k xp 0) * (nth (S k) fp 0 - nth k fp 0)
            / (nth (S k) xp 0 - nth k xp 0)).
  { intros j k Hjk Hk Hxj Hxk.
    destruct (Nat.eq_dec (S j) k) as [E|E].
    - subst k. rewrite chord_hi by (try lia; lra).
      rewrite chord_lo by (try lia; lra). reflexivity.
    - pose proof (Hlt (S j) k ltac:(lia)). lra. }
  destruct H1 as [Hl1|Hr1|j Hj Hxj]; destruct H2 as [Hl2|Hr2|k Hk Hxk].
  - reflexivity.
  - destruct (Nat.eq_dec (length xp) 1) as [E|E]; [now apply ends|].
    rewrite hd_nth in Hl1. rewrite last_nth in Hr2.
    pose proof (Hlt 0%nat (length xp - 1)%nat ltac:(lia)). lra.
  - now apply left_chord.
  - destruct (Nat.eq_dec (length xp) 1) as [E|E];
      [symmetry; now apply ends|].
    rewrite hd_nth in Hl2. rewrite last_nth in Hr1.
    pose proof (Hlt 0%nat (length xp - 1)%nat ltac:(lia)). lra.
  - reflexivity.
  - now apply right_chord.
  - symmetry. now apply left_chord.
  - symmetry. now apply right_chord.
  - destruct (Nat.lt_trichotomy j k) as [Hjk|[->|Hjk]].
    + now apply chords.
    + reflexivity.
    + symmetry. now apply chords.
Qed.

(* ----------------------------------------------------------------- *)
(** ** [np.interp] on whole arrays *)

Lemma np_interp_Ok x xp fp :
  xp <> [] -> length fp = length xp ->
  np_interp x xp fp = Ok (map (interp_point xp fp) x).
Proof.
  intros Hne Hlen. unfold np_interp.
  destruct xp as [|a xp]; [contradiction|].
  rewrite Hlen, Nat.eqb_refl. reflexivity.
Qed.

Lemma vmul_map {A} (f g : A -> R) (l : list A) :
  vmul (map f l) (map g l) = map (fun x => f x * g x) l.
Proof.
  unfold vmul. induction l as [|x l IH]; simpl; [reflexivity|].
  now rewrite IH.
Qed.

(* ----------------------------------------------------------------- *)
(** ** The total transmittance *)

(** C7 -- the combiner.  For five components, each on its own non-empty
    increasing grid with one value per grid point, and any target grid,
    the script's total at each target wavelength is the product of the
    five component values there, where a component's value is its clamped
    linear interpolant: the first (last) native value at or left (right)
    of the native range, the point on the chord of the bracketing interval
    inside it.  That interpolant is unique. *)
Theorem total_is_product_of_interpolants wavelengths ray oz water aer umg :
  Forall well_formed [ray; oz; water; aer; umg] ->
  let value c := interp_point (wvl_arr c) (make_transmission c) in
  trans_total wavelengths ray oz water aer umg =
    Ok (map (fun x => value ray x * value oz x * value water x
                      * value aer x * value umg x) wavelengths)
  /\
  forall c x, In c [ray; oz; water; aer; umg] ->
    interpolates (wvl_arr c) (make_transmission c) x (value c x) /\
    forall y, interpolates (wvl_arr c) (make_transmission c) x y ->
              y = value c x.
Proof.
  intros Hwf value. split.
  - unfold trans_total.
    repeat match goal with
    | H : Forall _ (_ :: _) |- _ => inversion H; clear H; subst
    end.
    repeat match goal with
    | H : well_formed ?c |- _ =>
        destruct H as (Hne & _ & Hlen);
        rewrite (np_interp_Ok wavelengths _ _ Hne Hlen); clear Hne Hlen
    end.
    simpl bind. rewrite !vmul_map. reflexivity.
  - intros c x Hc.
    rewrite Forall_forall in Hwf. destruct (Hwf c Hc) as (Hne & Hinc & Hlen).
    pose proof (interp_point_interpolates _ _ x Hne Hlen) as Hi.
    split; [exact Hi|].
    intros y Hy. exact (interpolates_unique _ _ x _ _ Hne Hinc Hlen Hy Hi).
Qed.

Lemma flat_well_formed : well_formed flat.
Proof.
  unfold well_formed, flat; simpl.
  repeat split; [discriminate|lra].
Qed.

Lemma ramp_well_formed : well_formed ramp.
Proof.
  unfold well_formed, ramp; simpl.
  repeat split; [discriminate|lra].
Qed.

Lemma total_is_product_of_interpolants_witness :
  Forall well_formed [ramp; flat; flat; flat; flat] /\
  trans_total [300; 500; 700] ramp flat flat flat flat =
  Ok (map (fun x =>
             interp_point [400; 600] [0; 1] x
             * interp_point [400; 600] [1; 1] x
             * interp_point [400; 600] [1; 1] x
             * interp_point [400; 600] [1; 1] x
             * interp_point [400; 600] [1; 1] x) [300; 500; 700]).
Proof.
  assert (H : Forall well_formed [ramp; flat; flat; flat; flat])
    by (repeat constructor;
        first [apply ramp_well_formed|apply flat_well_formed]).
  split; [exact H|].
  exact (proj1 (total_is_product_of_interpolants
                  [300; 500; 700] ramp flat flat flat flat H)).
Defined.

(** Deciding the comparisons of [interp_point] at concrete numbers. *)
Ltac decide_reals :=
  repeat match goal with
  | |- context [Rlt_dec ?a ?b] => destruct (Rlt_dec a b); try lra
  | |- context [Rle_dec ?a ?b] => destruct (Rle_dec a b); try lra
  | |- context [Req_dec_T ?a ?b] => destruct (Req_dec_T a b); try lra
  end.

Lemma ramp_values :
  map (interp_point [400; 600] [0; 1]) [300; 500; 700] = [0; 0.5; 1].
Proof.
  unfold interp_point, binary_search_with_guess, linear_search; simpl.
  decide_reals; simpl; decide_reals; simpl.
  repeat (apply f_equal2; [lra|]). reflexivity.
Qed.

(* ----------------------------------------------------------------- *)
(** ** When the combination fails *)

(** C8, as stated, fails: none of a one-point component, an empty target
    grid or a non-monotonic target grid stops the script.  A one-point
    component contributes its single value everywhere, an empty target
    gives an empty total, and a target in any order is interpolated point
    by point. *)
Lemma malformed_grids_not_rejected :
  trans_total [500] one_point flat flat flat flat = Ok [0.9] /\
  trans_total [] flat flat flat flat flat = Ok [] /\
  trans_total [600; 400] ramp flat flat flat flat = Ok [1; 0] /\
  ~ raises (trans_total [500] one_point flat flat flat flat) /\
  ~ raises (trans_total [] flat flat flat flat flat) /\
  ~ raises (trans_total [600; 400] ramp flat flat flat flat).
Proof.
  assert (H1 : trans_total [500] one_point flat flat flat flat = Ok [0.9]).
  { unfold trans_total, np_interp, interp_point, binary_search_with_guess,
      linear_search; simpl.
    decide_reals; simpl; decide_reals; unfold vmul; simpl.
    apply (f_equal Ok). repeat (apply f_equal2; [lra|]). reflexivity. }
  assert (H2 : trans_total [] flat flat flat flat flat = Ok [])
    by reflexivity.
  assert (H3 : trans_total [600; 400] ramp flat flat flat flat = Ok [1; 0]).
  { unfold trans_total, np_interp, interp_point, binary_search_with_guess,
      linear_search; simpl.
    decide_reals; simpl; decide_reals; unfold vmul; simpl.
    apply (f_equal Ok). repeat (apply f_equal2; [lra|]). reflexivity. }
  repeat split; try assumption;
    intros [e He]; congruence.
Qed.

(** C8, amended -- the combination fails, with numpy's [ValueError] and
    without producing a total, exactly when some component has no points
    or its values and its grid differ in length; a one-point component, an
    empty target grid and a non-monotonic target grid are accepted. *)
Theorem combination_fails_iff wavelengths ray oz water aer umg :
  (raises (trans_total wavelengths ray oz water aer umg) <->
   Exists (fun c => wvl_arr c = [] \/
                    length (make_transmission c) <> length (wvl_arr c))
          [ray; oz; water; aer; umg])
  /\
  (raises (trans_total wavelengths ray oz water aer umg) ->
   trans_total wavelengths ray oz water aer umg = Raise ValueError).
Proof.
  assert (Hcase : forall c,
    (wvl_arr c <> [] /\ length (make_transmission c) = length (wvl_arr c) /\
     np_interp wavelengths (wvl_arr c) (make_transmission c) =
     Ok (map (interp_point (wvl_arr c) (make_transmission c)) wavelengths))
    \/
    ((wvl_arr c = [] \/ length (make_transmission c) <> length (wvl_arr c)) /\
     np_interp wavelengths (wvl_arr c) (make_transmission c) =
     Raise ValueError)).
  { intros c. unfold np_interp. destruct (wvl_arr c) as [|a xp] eqn:E.
    - right. split; [now left|reflexivity].
    - destruct (Nat.eqb (length (make_transmission c)) (length (a :: xp)))
        eqn:El.
      + apply Nat.eqb_eq in El. left. repeat split; [discriminate|exact El].
      + apply Nat.eqb_neq in El. right. split; [now right|reflexivity]. }
  unfold trans_total, raises.
  destruct (Hcase ray) as [(N1 & L1 & ->)|[B1 ->]];
    [|split; [split; [intros _; now constructor|intros _; now eexists]
             |reflexivity]].
  destruct (Hcase oz) as [(N2 & L2 & ->)|[B2 ->]];
    [|split; [split; [intros _; now do 2 constructor|intros _; now eexists]
             |reflexivity]].
  destruct (Hcase water) as [(N3 & L3 & ->)|[B3 ->]];
    [|split; [split; [intros _; now do 3 constructor|intros _; now eexists]
             |reflexivity]].
  destruct (Hcase aer) as [(N4 & L4 & ->)|[B4 ->]];
    [|split; [split; [intros _; now do 4 constructor|intros _; now eexists]
             |reflexivity]].
  destruct (Hcase umg) as [(N5 & L5 & ->)|[B5 ->]];
    [|split; [split; [intros _; now do 5 constructor|intros _; now eexists]
             |reflexivity]].
  simpl bind. split; [split|].
  - intros [e He]. discriminate.
  - intros H.
    repeat match goal with
    | H : Exists _ (_ :: _) |- _ => inversion H; clear H; subst
    | H : Exists _ [] |- _ => inversion H
    | H : _ \/ _ |- _ => destruct H
    end; contradiction.
  - intros [e He]. discriminate.
Qed.

(* ================================================================= *)
(** * Further properties of [_optical_depth] *)

(* ----------------------------------------------------------------- *)
(** ** Shape and sign of the result *)

Lemma accumulator_shaped self pp0 sza S t t' :
  shaped (length sza) (length (GasAnalysis.wvl_arr self)) t ->
  accumulator self pp0 sza S t = Ok t' ->
  shaped (length sza) (length (GasAnalysis.wvl_arr self)) t'.
Proof.
  revert t; induction S as [|s S IH]; intros t Ht; simpl.
  - intros H. inversion H. now subst.
  - destruct (term self pp0 sza s t) as [t1|e] eqn:E; simpl; [|discriminate].
    apply IH. eapply accumulate_shaped; [exact Ht|exact E].
Qed.

(** X1 -- whenever [_optical_depth] returns, the array has one row per
    zenith angle and one column per wavelength of the instance's grid. *)
Theorem optical_depth_shape self pp0 sza t :
  _optical_depth self pp0 sza = Ok t ->
  length t = length sza /\
  Forall (fun row => length row = length (GasAnalysis.wvl_arr self)) t.
Proof.
  rewrite optical_depth_accumulates. intros H.
  exact (accumulator_shaped self pp0 sza _ _ _ (zeros_shaped _ _) H).
Qed.

Lemma optical_depth_shape_witness :
  length [[0 + 1 * (1.67766e5 * 1) * 1]] = length [30] /\
  Forall (fun row => length row = length (GasAnalysis.wvl_arr nh3_probe))
         [[0 + 1 * (1.67766e5 * 1) * 1]].
Proof.
  apply (optical_depth_shape nh3_probe 1 [30]). reflexivity.
Defined.







(* ----------------------------------------------------------------- *)
(** ** Which tables a call reads, and how it fails *)

Lemma broadcast_cols_cases w r :
  (length r = w \/ length r = 1%nat) /\ (exists r', broadcast_cols w r = Ok r')
  \/
  ~ (length r = w \/ length r = 1%nat) /\ broadcast_cols w r = Raise ValueError.
Proof.
  unfold broadcast_cols. destruct (Nat.eqb (length r) w) eqn:E.
  - apply Nat.eqb_eq in E. left. split; [now left|now eexists].
  - apply Nat.eqb_neq in E. destruct r as [|x [|y r]].
    + right. split; [simpl in *; intros [H|H]; [congruence|discriminate]
                    |reflexivity].
    + left. split; [now right|now eexists].
    + right. split; [simpl in *; intros [H|H]; [congruence|discriminate]
                    |reflexivity].
Qed.


Lemma term_zeros_Ok_iff self pp0 sza s :
  (exists m, term self pp0 sza s
               (zeros (length sza) (length (GasAnalysis.wvl_arr self))) = Ok m)
  <-> usable (GasAnalysis.wvl_arr self) (attrs self) s.
Proof.
  unfold usable, term, term_with, accumulate, getabs, getattr.
  destruct (attrs self (String.append (constituent s) "abs")) as [a|].
  - simpl bind. unfold iadd_outer.
    destruct (broadcast_cols_cases (length (GasAnalysis.wvl_arr self))
                (row_scale a (abundance s pp0 (tair self) (co2_ppm self))))
      as [[Hl [r' ->]]|[Hl ->]];
      unfold row_scale in Hl; rewrite length_map in Hl.
    + split; [intros _; now exists a|intros _; simpl; now eexists].
    + split; [intros [m Hm]; discriminate|].
      intros [a' [Ha' Hl']]. inversion Ha'; subst. contradiction.
  - split; [intros [m Hm]; discriminate|intros [a [Ha _]]; discriminate].
Qed.

Lemma mapM_Ok_iff {A B} (f : A -> result B) (l : list A) :
  (exists ys, mapM f l = Ok ys) <-> Forall (fun x => exists y, f x = Ok y) l.
Proof.
  induction l as [|x l IH]; simpl.
  - split; [constructor|intros _; now eexists].
  - split.
    + intros [ys H]. destruct (f x) as [y|e] eqn:E; [|discriminate].
      simpl in H. destruct (mapM f l) as [ys'|e] eqn:E'; [|discriminate].
      constructor; [exists y; exact E|]. apply IH. now eexists.
    + intros H. inversion H as [|? ? [y Hy] Hl]; subst.
      apply IH in Hl. destruct Hl as [ys Hys].
      rewrite Hy, Hys. simpl. now eexists.
Qed.

(** X4 -- a run over all gases succeeds exactly when each of the eight
    tables is usable: present, and of the grid's length or of length
    one. *)
Theorem all_gases_succeed_iff tair co2 wvl tables am pp0 sza :
  (exists t,
     _optical_depth (mkUMG tair co2 true "ALL" wvl tables am) pp0 sza = Ok t)
  <-> forall s, usable wvl tables s.
Proof.
  rewrite optical_depth_accumulates, selection_all.
  rewrite accumulator_sum by apply zeros_shaped.
  change (filter (fun s => negb (is_trace s) || true) all_species)
    with all_species.
  set (self := mkUMG tair co2 true "ALL" wvl tables am).
  assert (Hall : forall s, In s all_species)
    by (intros []; simpl; tauto).
  split.
  - intros [t Ht] s.
    assert (HF : exists ys, mapM (fun s => term self pp0 sza s
                  (zeros (length sza) (length (GasAnalysis.wvl_arr self))))
                  all_species = Ok ys).
    { destruct (mapM _ all_species) as [ms|e];
        [now eexists|simpl in Ht; discriminate]. }
    apply mapM_Ok_iff in HF. rewrite Forall_forall in HF.
    apply (term_zeros_Ok_iff self pp0 sza s). apply HF. apply Hall.
  - intros H.
    assert (HF : Forall (fun s => exists y, term self pp0 sza s
                  (zeros (length sza) (length (GasAnalysis.wvl_arr self)))
                  = Ok y) all_species).
    { apply Forall_forall. intros s _.
      apply (term_zeros_Ok_iff self pp0 sza s). apply H. }
    apply mapM_Ok_iff in HF. destruct HF as [ys Hys].
    rewrite Hys. simpl. now eexists.
Qed.

(** X5 -- a single-gas run reads no table but its own: replacing every
    other attribute of the instance leaves the result unchanged. *)
Theorem single_gas_reads_own_table s tair co2 wvl tables tables' am pp0 sza :
  tables' (String.append (constituent s) "abs") =
  tables (String.append (constituent s) "abs") ->
  _optical_depth (mkUMG tair co2 true (name s) wvl tables' am) pp0 sza =
  _optical_depth (mkUMG tair co2 true (name s) wvl tables am) pp0 sza.
Proof.
  intros H. rewrite !optical_depth_single.
  unfold term, term_with, accumulate, getabs, getattr. simpl attrs.
  rewrite H. reflexivity.
Qed.

Lemma single_gas_reads_own_table_witness :
  _optical_depth
    (mkUMG 15 415 true "O2" [760]
           (fun key => if key =? "o2abs" then Some [1] else None)
           (fun _ _ => 1)) 1 [30] =
  _optical_depth nh3_probe 1 [30].
Proof.
  apply (single_gas_reads_own_table O2 15 415 [760]
           (fun _ => Some [1])
           (fun key => if key =? "o2abs" then Some [1] else None)
           (fun _ _ => 1) 1 [30]).
  reflexivity.
Defined.

(* ----------------------------------------------------------------- *)
(** ** What the CO2 mixing ratio and the flag can change *)

Lemma accumulator_co2 tair co2 co2' flag target wvl tables am pp0 sza S t :
  ~ In CO2 S ->
  accumulator (mkUMG tair co2' flag target wvl tables am) pp0 sza S t =
  accumulator (mkUMG tair co2 flag target wvl tables am) pp0 sza S t.
Proof.
  revert t. induction S as [|s S IH]; intros t H; simpl; [reflexivity|].
  assert (Hs : s <> CO2) by (intros E; apply H; now left).
  replace (term (mkUMG tair co2' flag target wvl tables am) pp0 sza s t)
    with (term (mkUMG tair co2 flag target wvl tables am) pp0 sza s t)
    by (destruct s; try reflexivity; now contradiction Hs).
  apply bind_ext. intros a _. apply IH. intros Hin. apply H. now right.
Qed.

(** X6 -- the CO2 mixing ratio enters only the CO2 term: when the target
    is neither ['CO2'] nor ['ALL'], instances that differ in [co2_ppm]
    alone give the same optical depth. *)
Theorem co2_only_in_co2_term tair co2 co2' flag target wvl tables am pp0 sza :
  target <> "CO2" -> target <> "ALL" ->
  _optical_depth (mkUMG tair co2' flag target wvl tables am) pp0 sza =
  _optical_depth (mkUMG tair co2 flag target wvl tables am) pp0 sza.
Proof.
  intros H1 H2. rewrite !optical_depth_accumulates.
  change (selection (mkUMG tair co2' flag target wvl tables am))
    with (selection (mkUMG tair co2 flag target wvl tables am)).
  apply accumulator_co2.
  apply (selection_lacks (mkUMG tair co2 flag target wvl tables am) CO2).
  apply selected_unmatched; assumption.
Qed.

Lemma co2_only_in_co2_term_witness :
  _optical_depth
    (mkUMG 15 280 true "O2" [760] (fun _ => Some [1]) (fun _ _ => 1))
    1 [30] =
  _optical_depth nh3_probe 1 [30].
Proof.
  apply (co2_only_in_co2_term 15 415 280 true "O2" [760]
           (fun _ => Some [1]) (fun _ _ => 1) 1 [30]); discriminate.
Defined.

(** X7 -- the trace-gas flag matters only to targets that select NH3:
    for any other target than ['NH3'] and ['ALL'] the optical depth is the
    same with the flag set and unset. *)
Theorem flag_matters_only_for_nh3 self b pp0 sza :
  target_gas self <> "NH3" -> target_gas self <> "ALL" ->
  _optical_depth (with_flag self b) pp0 sza = _optical_depth self pp0 sza.
Proof.
  intros H1 H2. rewrite !optical_depth_accumulates, accumulator_flag.
  rewrite (selection_flag self), (selection_flag (with_flag self b)).
  assert (E : selected self "NH3" = false)
    by (apply selected_unmatched; assumption).
  change (selected (with_flag self b) "NH3") with (selected self "NH3").
  rewrite E, !andb_false_r.
  reflexivity.
Qed.

Lemma flag_matters_only_for_nh3_witness :
  _optical_depth (with_flag nh3_probe false) 1 [30] =
  _optical_depth nh3_probe 1 [30].
Proof.
  apply (flag_matters_only_for_nh3 nh3_probe false 1 [30]);
    simpl; discriminate.
Defined.

(* ================================================================= *)
(** * Further properties of the combiner *)

(* ----------------------------------------------------------------- *)
(** ** Interpolating at the component's own grid points *)

Lemma interp_point_at_node xp fp i :
  xp <> [] -> increasing xp -> length fp = length xp ->
  (i < length xp)%nat ->
  interp_point xp fp (nth i xp 0) = nth i fp 0.
Proof.
  intros Hne Hinc Hlen Hi.
  symmetry. eapply interpolates_unique; try eassumption.
  - destruct (Nat.eq_dec (S i) (length xp)) as [E|E].
    + eapply interpolates_eq.
      * apply clamp_right. rewrite last_nth.
        replace (length xp - 1)%nat with i by lia. apply Rle_refl.
      * rewrite last_nth, Hlen. f_equal. lia.
    + eapply interpolates_eq.
      * apply (on_chord xp fp (nth i xp 0) i); [lia|].
        split; [apply Rle_refl|].
        apply (increasing_nth_le xp Hinc). lia.
      * unfold Rdiv. ring.
  - apply interp_point_interpolates; assumption.
Qed.

Lemma np_interp_identity xp fp :
  xp <> [] -> increasing xp -> length fp = length xp ->
  np_interp xp xp fp = Ok fp.
Proof.
  intros Hne Hinc Hlen. rewrite np_interp_Ok by assumption.
  apply (f_equal Ok).
  apply (nth_ext _ _ 0 0); [now rewrite length_map|].
  intros i Hi. rewrite length_map in Hi.
  rewrite (nth_indep _ 0 (interp_point xp fp 0)) by now rewrite length_map.
  rewrite map_nth. now apply interp_point_at_node.
Qed.

(** X8 -- the identity case.  Five components already given on the target
    grid (non-empty and increasing) are combined without change: the
    total is the plain elementwise product of their five value arrays. *)
Theorem combiner_identity_on_shared_grid grid r o w a u :
  grid <> [] -> increasing grid ->
  length r = length grid -> length o = length grid ->
  length w = length grid -> length a = length grid ->
  length u = length grid ->
  trans_total grid (mkComponent grid r) (mkComponent grid o)
              (mkComponent grid w) (mkComponent grid a) (mkComponent grid u) =
  Ok (vmul (vmul (vmul (vmul r o) w) a) u).
Proof.
  intros Hne Hinc Hr Ho Hw Ha Hu. unfold trans_total. simpl.
  rewrite !np_interp_identity by assumption. reflexivity.
Qed.

Lemma combiner_identity_on_shared_grid_witness :
  trans_total [400; 600] ramp flat flat flat flat =
  Ok (vmul (vmul (vmul (vmul [0; 1] [1; 1]) [1; 1]) [1; 1]) [1; 1]).
Proof.
  apply (combiner_identity_on_shared_grid
           [400; 600] [0; 1] [1; 1] [1; 1] [1; 1] [1; 1]);
    try reflexivity; [discriminate|simpl; lra].
Defined.

(* ----------------------------------------------------------------- *)
(** ** Interpolation stays within the component's values *)








(* ================================================================= *)
(** * The band averages of the transmission script *)

Import Stats TransmissionBands.

Lemma select_length {A} (arr : list A) (mask : list bool) :
  length mask = length arr -> length (select arr mask) = np_sum mask.
Proof.
  revert mask. induction arr as [|x arr IH]; intros [|b mask] H;
    simpl in *; try discriminate; [reflexivity|].
  destruct b; simpl; rewrite IH by lia; reflexivity.
Qed.

Lemma select_In {A} (arr : list A) (mask : list bool) x :
  In x (select arr mask) -> In x arr.
Proof.
  revert mask. induction arr as [|y arr IH]; intros [|b mask]; simpl;
    try tauto.
  destruct b; simpl; intros H.
  - destruct H as [H|H]; [now left|right; eauto].
  - right; eauto.
Qed.

Lemma sum_bounds (l : list R) lo hi :
  Forall (fun x => lo <= x <= hi) l ->
  INR (length l) * lo <= fold_right Rplus 0 l <= INR (length l) * hi.
Proof.
  induction 1 as [|x l Hx Hl IH].
  - simpl. lra.
  - change (length (x :: l)) with (S (length l)). rewrite S_INR.
    simpl fold_right. lra.
Qed.

(** The mean of a non-empty array lies between any bounds of its
    entries. *)
Lemma np_mean_bounds (l : list R) lo hi :
  l <> [] -> Forall (fun x => lo <= x <= hi) l ->
  lo <= np_mean l <= hi.
Proof.
  intros Hne Hl. unfold np_mean.
  assert (Hn : 0 < INR (length l)).
  { apply lt_0_INR. destruct l; [contradiction|simpl; lia]. }
  pose proof (sum_bounds l lo hi Hl) as [H1 H2].
  split.
  - apply (Rmult_le_reg_r (INR (length l))); [exact Hn|].
    unfold Rdiv. rewrite Rmult_assoc, Rinv_l by lra. lra.
  - apply (Rmult_le_reg_r (INR (length l))); [exact Hn|].
    unfold Rdiv. rewrite Rmult_assoc, Rinv_l by lra. lra.
Qed.

Lemma band_membership w :
  300 <= w <= 1100 ->
  ((if leb 300 w && leb w 400 then 1 else 0) +
   (if leb 400 w && leb w 700 then 1 else 0) +
   (if leb 700 w && leb w 1100 then 1 else 0))%nat =
  (1 + (if Req_dec_T w 400 then 1 else 0)
     + (if Req_dec_T w 700 then 1 else 0))%nat.
Proof.
  intros Hw. unfold leb.
  destruct (Rle_dec 300 w); [|lra]. destruct (Rle_dec w 1100); [|lra].
  destruct (Rle_dec w 400), (Rle_dec 400 w), (Rle_dec w 700),
    (Rle_dec 700 w), (Req_dec_T w 400), (Req_dec_T w 700);
    simpl; try reflexivity; lra.
Qed.

(** X10 -- the three bands overlap at their common ends.  On a target
    grid within 300-1100 nm every wavelength is counted in a band, and
    the wavelengths 400 and 700 are counted in two: the sizes of the UV,
    visible and NIR selections add up to the number of wavelengths plus
    the occurrences of 400 and of 700. *)
Theorem bands_cover_and_overlap wavelengths :
  Forall (fun w => 300 <= w <= 1100) wavelengths ->
  (np_sum (uv_mask wavelengths) + np_sum (vis_mask wavelengths)
   + np_sum (nir_mask wavelengths))%nat =
  (length wavelengths + count_occ Req_dec_T wavelengths 400%R
   + count_occ Req_dec_T wavelengths 700%R)%nat.
Proof.
  unfold uv_mask, vis_mask, nir_mask, band_mask.
  induction 1 as [|w wl Hw Hwl IH]; [reflexivity|].
  pose proof (band_membership w Hw) as Hb.
  cbn [map np_sum length count_occ].
  destruct (Req_dec_T w 400) as [E4|E4], (Req_dec_T w 700) as [E7|E7];
    destruct (Req_dec_T w 400), (Req_dec_T w 700); try contradiction;
    try (exfalso; lra); lia.
Qed.

Lemma bands_cover_and_overlap_witness :
  (np_sum (uv_mask [300; 400; 700]%R) + np_sum (vis_mask [300; 400; 700]%R)
   + np_sum (nir_mask [300; 400; 700]%R))%nat =
  (3 + count_occ Req_dec_T [300; 400; 700]%R 400%R
   + count_occ Req_dec_T [300; 400; 700]%R 700%R)%nat.
Proof.
  apply (bands_cover_and_overlap [300; 400; 700]).
  repeat (apply Forall_cons; [lra|]). apply Forall_nil.
Defined.

Lemma bool_index_aligned {A} (arr : list A) (mask : list bool) :
  length mask = length arr -> bool_index arr mask = Done (select arr mask).
Proof. intros H. unfold bool_index. now rewrite H, Nat.eqb_refl. Qed.

Lemma select_nonempty {A} (arr : list A) (mask : list bool) :
  length mask = length arr -> np_sum mask <> O -> select arr mask <> [].
Proof.
  intros Hl Hn E. apply (f_equal (@length A)) in E.
  rewrite select_length in E by exact Hl. simpl in E. contradiction.
Qed.

(** X11 -- band averages of a transmittance are transmittances.  For a
    total spectrum aligned with the target grid, the three selections
    never fail, and the mean of every band that holds at least one
    wavelength lies between 0 and 1 when the total does. *)
Theorem band_means_within_unit_interval wavelengths total :
  length total = length wavelengths ->
  unit_interval total ->
  exists uv vis nir,
    band_means wavelengths total = Done (uv, vis, nir) /\
    (np_sum (uv_mask wavelengths) <> O -> 0 <= uv <= 1) /\
    (np_sum (vis_mask wavelengths) <> O -> 0 <= vis <= 1) /\
    (np_sum (nir_mask wavelengths) <> O -> 0 <= nir <= 1).
Proof.
  intros Hlen Hunit.
  assert (Hm : forall lo hi,
            length (band_mask lo hi wavelengths) = length total)
    by (intros; unfold band_mask; now rewrite length_map).
  assert (Hmean : forall lo hi,
            np_sum (band_mask lo hi wavelengths) <> O ->
            0 <= np_mean (select total (band_mask lo hi wavelengths)) <= 1).
  { intros lo hi Hn. apply np_mean_bounds.
    - apply select_nonempty; [apply Hm|exact Hn].
    - apply Forall_forall. intros x Hx. apply select_In in Hx.
      unfold unit_interval in Hunit. rewrite Forall_forall in Hunit.
      now apply Hunit. }
  unfold band_means, uv_mask, vis_mask, nir_mask.
  rewrite !bool_index_aligned by apply Hm.
  cbn [and_then]. do 3 eexists. split; [reflexivity|].
  repeat split; apply Hmean; assumption.
Qed.

Lemma band_means_within_unit_interval_witness :
  exists uv vis nir,
    band_means [300; 500; 700] [0; 0.5; 1] = Done (uv, vis, nir) /\
    0 <= uv <= 1.
Proof.
  destruct (band_means_within_unit_interval [300; 500; 700] [0; 0.5; 1])
    as (uv & vis & nir & H & Huv & _).
  - reflexivity.
  - unfold unit_interval. repeat (apply Forall_cons; [lra|]).
    apply Forall_nil.
  - exists uv, vis, nir. split; [exact H|]. apply Huv.
    unfold uv_mask, band_mask, leb. cbn [map np_sum].
    destruct (Rle_dec 300 300); [|lra].
    destruct (Rle_dec 300 400); [|lra]. simpl. lia.
Defined.

(* ================================================================= *)
(** * Further properties of the trace-gas abundances *)

(** X12 -- which branch of [min] the NO2 abundance takes.  Below the
    pressure ratio [1.8599 / 41.58647] (about 0.0447) the abundance is
    proportional to the pressure ratio, from there on it is the affine
    branch; it never decreases as the pressure ratio grows. *)
Theorem no2_abundance_branches pp0 pp0' :
  (41.58647 * pp0 < 1.8599 ->
   TraceGasScript.no2_abundance_at pp0 = 1e-4 * (41.771 * pp0)) /\
  (1.8599 <= 41.58647 * pp0 ->
   TraceGasScript.no2_abundance_at pp0 = 1e-4 * (1.8599 + 0.18453 * pp0)) /\
  (pp0 <= pp0' ->
   TraceGasScript.no2_abundance_at pp0 <= TraceGasScript.no2_abundance_at pp0').
Proof.
  unfold TraceGasScript.no2_abundance_at, TraceGasScript.py_min.
  repeat split; intros H.
  - destruct (Rlt_dec _ _); lra.
  - destruct (Rlt_dec _ _); lra.
  - destruct (Rlt_dec (41.771 * pp0) _), (Rlt_dec (41.771 * pp0') _); lra.
Qed.

Lemma no2_abundance_branches_witness :
  TraceGasScript.no2_abundance_at 1 = 1e-4 * (1.8599 + 0.18453 * 1).
Proof.
  apply (proj1 (proj2 (no2_abundance_branches 1 1))). lra.
Defined.

(* ================================================================= *)
(** * The summaries of the analysis scripts *)

(* ----------------------------------------------------------------- *)
(** ** Reductions *)

Lemma fold_min_spec (l : list R) (x : R) :
  let m := fold_left (fun m y => if Rlt_dec y m then y else m) l x in
  In m (x :: l) /\ forall y, In y (x :: l) -> m <= y.
Proof.
  revert x. induction l as [|a l IH]; intros x; simpl.
  - split; [now left|]. intros y [<-|[]]. apply Rle_refl.
  - destruct (Rlt_dec a x) as [H|H].
    + destruct (IH a) as [Hin Hle]. split.
      * right. exact Hin.
      * intros y [<-|Hy]; [|now apply Hle].
        apply Rle_trans with a; [apply Hle; now left|lra].
    + destruct (IH x) as [Hin Hle]. split.
      * destruct Hin as [<-|Hin]; [now left|right; now right].
      * intros y [<-|[<-|Hy]].
        -- apply Hle. now left.
        -- apply Rle_trans with x; [apply Hle; now left|lra].
        -- apply Hle. now right.
Qed.

Lemma fold_max_spec (l : list R) (x : R) :
  let m := fold_left (fun m y => if Rlt_dec m y then y else m) l x in
  In m (x :: l) /\ forall y, In y (x :: l) -> y <= m.
Proof.
  revert x. induction l as [|a l IH]; intros x; simpl.
  - split; [now left|]. intros y [<-|[]]. apply Rle_refl.
  - destruct (Rlt_dec x a) as [H|H].
    + destruct (IH a) as [Hin Hle]. split.
      * right. exact Hin.
      * intros y [<-|Hy]; [|now apply Hle].
        apply Rle_trans with a; [lra|apply Hle; now left].
    + destruct (IH x) as [Hin Hle]. split.
      * destruct Hin as [<-|Hin]; [now left|right; now right].
      * intros y [<-|[<-|Hy]].
        -- apply Hle. now left.
        -- apply Rle_trans with x; [lra|apply Hle; now left].
        -- apply Hle. now right.
Qed.

Lemma np_min_spec (l : list R) :
  l <> [] ->
  exists m, np_min l = Done m /\ In m l /\ forall y, In y l -> m <= y.
Proof.
  destruct l as [|x l]; [contradiction|]. intros _.
  eexists. split; [reflexivity|]. apply fold_min_spec.
Qed.

Lemma np_max_spec (l : list R) :
  l <> [] ->
  exists m, np_max l = Done m /\ In m l /\ forall y, In y l -> y <= m.
Proof.
  destruct l as [|x l]; [contradiction|]. intros _.
  eexists. split; [reflexivity|]. apply fold_max_spec.
Qed.

Lemma argmin_from_spec (l pre : list R) (best : R) (bi : nat) :
  (bi < length pre)%nat -> nth bi pre 0 = best ->
  (forall y, In y pre -> best <= y) ->
  let r := argmin_from best bi (length pre) l in
  (r < length (pre ++ l))%nat /\
  forall y, In y (pre ++ l) -> nth r (pre ++ l) 0 <= y.
Proof.
  revert pre best bi. induction l as [|a l IH]; intros pre best bi Hbi Hn Hle.
  - simpl. rewrite app_nil_r. split; [exact Hbi|].
    intros y Hy. rewrite Hn. now apply Hle.
  - simpl. replace (pre ++ a :: l) with ((pre ++ [a]) ++ l)
      by (rewrite <- app_assoc; reflexivity).
    replace (S (length pre)) with (length (pre ++ [a]))
      by (rewrite length_app; simpl; lia).
    destruct (Rlt_dec a best) as [H|H].
    + apply IH.
      * rewrite length_app. simpl. lia.
      * rewrite app_nth2 by lia. now rewrite Nat.sub_diag.
      * intros y Hy. apply in_app_or in Hy. destruct Hy as [Hy|[<-|[]]].
        -- specialize (Hle y Hy). lra.
        -- apply Rle_refl.
    + apply IH.
      * rewrite length_app. simpl. lia.
      * rewrite app_nth1 by exact Hbi. exact Hn.
      * intros y Hy. apply in_app_or in Hy. destruct Hy as [Hy|[<-|[]]].
        -- now apply Hle.
        -- lra.
Qed.

Lemma np_argmin_spec (l : list R) :
  l <> [] ->
  exists i, np_argmin l = Done i /\ (i < length l)%nat /\
            forall y, In y l -> nth i l 0 <= y.
Proof.
  destruct l as [|x l]; [contradiction|]. intros _.
  eexists. split; [reflexivity|].
  apply (argmin_from_spec l [x] x 0).
  - simpl. lia.
  - reflexivity.
  - intros y [<-|[]]. apply Rle_refl.
Qed.

Lemma index_nth {A} (l : list A) (i : nat) (d : A) :
  (i < length l)%nat -> index l i = Done (nth i l d).
Proof.
  intros H. unfold index.
  destruct (nth_error l i) as [x|] eqn:E.
  - now rewrite (nth_error_nth _ _ d E).
  - apply nth_error_None in E. lia.
Qed.

(* ----------------------------------------------------------------- *)
(** ** Counting entries below a threshold *)

Lemma count_below_le_length (l : list R) thr :
  (np_sum (less_than l thr) <= length l)%nat.
Proof.
  induction l as [|x l IH]; simpl; [lia|].
  destruct (ltb x thr); lia.
Qed.

Lemma count_below_mono (l : list R) a b :
  a <= b -> (np_sum (less_than l a) <= np_sum (less_than l b))%nat.
Proof.
  intros Hab. induction l as [|x l IH]; simpl; [lia|].
  unfold ltb. destruct (Rlt_dec x a), (Rlt_dec x b); try lia. lra.
Qed.

Lemma count_below_zero (l : list R) thr :
  np_sum (less_than l thr) = O <-> forall x, In x l -> thr <= x.
Proof.
  induction l as [|x l IH]; simpl.
  - split; [intros _ y []|reflexivity].
  - unfold ltb. destruct (Rlt_dec x thr) as [H|H]; split.
    + discriminate.
    + intros Hall. specialize (Hall x (or_introl eq_refl)). lra.
    + simpl. intros H0 y [<-|Hy]; [lra|]. now apply IH.
    + simpl. intros Hall. apply IH. intros y Hy. apply Hall. now right.
Qed.

(* ----------------------------------------------------------------- *)
(** ** Minimum, maximum, mean and where the minimum sits *)

Lemma summary_core (trans wavelengths : list R) :
  trans <> [] -> length wavelengths = length trans ->
  exists mn mx i w,
    np_min trans = Done mn /\ np_max trans = Done mx /\
    np_argmin trans = Done i /\ index wavelengths i = Done w /\
    nth_error trans i = Some mn /\ nth_error wavelengths i = Some w /\
    (forall x, In x trans -> mn <= x <= mx).
Proof.
  intros Hne Hlen.
  destruct (np_min_spec trans Hne) as (mn & Hmn & Hin & Hle).
  destruct (np_max_spec trans Hne) as (mx & Hmx & _ & Hge).
  destruct (np_argmin_spec trans Hne) as (i & Hi & Hlt & Hile).
  assert (Hw : (i < length wavelengths)%nat) by lia.
  exists mn, mx, i, (nth i wavelengths 0).
  assert (Hb : forall x, In x trans -> mn <= x <= mx)
    by (intros x Hx; split; [now apply Hle|now apply Hge]).
  assert (E : nth i trans 0 = mn).
  { apply Rle_antisym; [now apply Hile|]. apply Hle. now apply nth_In. }
  split; [exact Hmn|]. split; [exact Hmx|]. split; [exact Hi|].
  split; [now apply index_nth|].
  split; [rewrite <- E; now apply nth_error_nth'|].
  split; [now apply nth_error_nth'|].
  exact Hb.
Qed.

(** X13 -- the single-gas summary is consistent.  For a non-empty
    spectrum on a grid of the same length nothing fails; the printed
    minimum and maximum bound every value; the wavelength printed with
    the minimum is the grid point where the minimum is attained; the
    count of points below 0.99 is zero exactly when the minimum is at
    least 0.99, and never exceeds the number of points.  All of this
    rests on comparisons of the values alone. *)
Theorem single_gas_summary trans wavelengths :
  trans <> [] -> length wavelengths = length trans ->
  exists s,
    GasSummary.analyze_single_gas trans wavelengths = Done s /\
    (forall x, In x trans ->
       GasSummary.min_trans s <= x <= GasSummary.max_trans s) /\
    (exists i, nth_error trans i = Some (GasSummary.min_trans s) /\
               nth_error wavelengths i = Some (GasSummary.min_wavelength s)) /\
    (GasSummary.strong_absorption s = O <-> 0.99 <= GasSummary.min_trans s) /\
    (GasSummary.strong_absorption s <= length trans)%nat.
Proof.
  intros Hne Hlen.
  destruct (summary_core trans wavelengths Hne Hlen)
    as (mn & mx & i & w & Hmn & Hmx & Hi & Hw & Ei & Ew & Hb).
  unfold GasSummary.analyze_single_gas.
  rewrite Hmn; cbn [and_then]. rewrite Hmx; cbn [and_then].
  rewrite Hi; cbn [and_then]. rewrite Hw; cbn [and_then].
  eexists. split; [reflexivity|]. cbn.
  split; [exact Hb|].
  split; [exists i; now split|].
  split; [|apply count_below_le_length].
  rewrite count_below_zero. split.
  - intros H0. apply H0. eapply nth_error_In. exact Ei.
  - intros H x Hx. specialize (Hb x Hx). lra.
Qed.

Lemma single_gas_summary_witness :
  exists s,
    GasSummary.analyze_single_gas [1; 0.5; 1] [759; 760; 761] = Done s /\
    (exists i, nth_error [1; 0.5; 1] i = Some (GasSummary.min_trans s) /\
               nth_error [759; 760; 761] i =
               Some (GasSummary.min_wavelength s)).
Proof.
  destruct (single_gas_summary [1; 0.5; 1] [759; 760; 761])
    as (s & Hs & _ & Hm & _).
  - discriminate.
  - reflexivity.
  - exists s. split; assumption.
Defined.

(** X14 -- the ozone summary's four counts are nested: the points below
    0.01 are among those below 0.1, those among the points below 0.5,
    those among the points below 0.9, and none of the counts exceeds the
    number of points; a count is zero exactly when the minimum reaches
    its threshold. *)
Theorem ozone_summary_counts trans wavelengths :
  trans <> [] -> length wavelengths = length trans ->
  exists s,
    OzoneAnalysis.analyze_ozone_transmission trans wavelengths = Done s /\
    (OzoneAnalysis.very_strong_abs s <= OzoneAnalysis.strong_abs s)%nat /\
    (OzoneAnalysis.strong_abs s <= OzoneAnalysis.moderate_abs s)%nat /\
    (OzoneAnalysis.moderate_abs s <= OzoneAnalysis.weak_abs s)%nat /\
    (OzoneAnalysis.weak_abs s <= length trans)%nat /\
    (OzoneAnalysis.very_strong_abs s = O <->
     0.01 <= OzoneAnalysis.min_trans s) /\
    (OzoneAnalysis.weak_abs s = O <-> 0.9 <= OzoneAnalysis.min_trans s).
Proof.
  intros Hne Hlen.
  destruct (summary_core trans wavelengths Hne Hlen)
    as (mn & mx & i & w & Hmn & Hmx & Hi & Hw & Ei & Ew & Hb).
  unfold OzoneAnalysis.analyze_ozone_transmission.
  rewrite Hmn; cbn [and_then]. rewrite Hmx; cbn [and_then].
  rewrite Hi; cbn [and_then]. rewrite Hw; cbn [and_then].
  eexists. split; [reflexivity|]. cbn.
  assert (Hzero : forall thr,
            np_sum (less_than trans thr) = O <-> thr <= mn).
  { intros thr. rewrite count_below_zero. split.
    - intros H0. apply H0. eapply nth_error_In. exact Ei.
    - intros H x Hx. specialize (Hb x Hx). lra. }
  split; [apply count_below_mono; lra|].
  split; [apply count_below_mono; lra|].
  split; [apply count_below_mono; lra|].
  split; [apply count_below_le_length|].
  split; apply Hzero.
Qed.

Lemma ozone_summary_counts_witness :
  exists s,
    OzoneAnalysis.analyze_ozone_transmission [0.005; 0.3; 0.95]
                                             [300; 310; 320] = Done s /\
    (OzoneAnalysis.very_strong_abs s <= OzoneAnalysis.strong_abs s)%nat.
Proof.
  destruct (ozone_summary_counts [0.005; 0.3; 0.95] [300; 310; 320])
    as (s & Hs & H1 & _).
  - discriminate.
  - reflexivity.
  - exists s. split; assumption.
Defined.

(* ----------------------------------------------------------------- *)
(** ** Boolean selections *)

Lemma select_own_mask {A} (p : A -> bool) (arr : list A) x :
  In x (select arr (map p arr)) -> p x = true /\ In x arr.
Proof.
  induction arr as [|y arr IH]; simpl; [tauto|].
  destruct (p y) eqn:E; simpl; intros H.
  - destruct H as [<-|H]; [split; [exact E|now left]|].
    destruct (IH H). split; [assumption|now right].
  - destruct (IH H). split; [assumption|now right].
Qed.

Lemma select_pairs {A B} (a : list A) (b : list B) (mask : list bool) k x y :
  nth_error (select a mask) k = Some x ->
  nth_error (select b mask) k = Some y ->
  length a = length b ->
  exists i, nth_error a i = Some x /\ nth_error b i = Some y /\
            nth_error mask i = Some true.
Proof.
  revert b mask k. induction a as [|a0 a IH]; intros [|b0 b] [|m mask] k;
    simpl; try (destruct k; discriminate); try discriminate.
  intros Hx Hy Hl. destruct m.
  - destruct k as [|k]; simpl in *.
    + exists O. simpl. auto.
    + destruct (IH b mask k Hx Hy ltac:(lia)) as (i & ? & ? & ?).
      exists (S i). simpl. auto.
  - destruct (IH b mask k Hx Hy ltac:(lia)) as (i & ? & ? & ?).
    exists (S i). simpl. auto.
Qed.

Lemma select_covers {A} (a : list A) (mask : list bool) i x :
  nth_error a i = Some x -> nth_error mask i = Some true ->
  In x (select a mask).
Proof.
  revert mask i. induction a as [|a0 a IH]; intros [|m mask] [|i]; simpl;
    try discriminate.
  - intros Hx Hm. inversion Hx; inversion Hm; subst. now left.
  - intros Hx Hm. destruct m; [right|]; eapply IH; eassumption.
Qed.

Lemma count_le_zero (l : list R) thr :
  np_sum (less_equal l thr) = O <-> forall x, In x l -> thr < x.
Proof.
  induction l as [|x l IH]; simpl.
  - split; [intros _ y []|reflexivity].
  - unfold leb. destruct (Rle_dec x thr) as [H|H]; split.
    + discriminate.
    + intros Hall. specialize (Hall x (or_introl eq_refl)). lra.
    + simpl. intros H0 y [<-|Hy]; [lra|]. now apply IH.
    + simpl. intros Hall. apply IH. intros y Hy. apply Hall. now right.
Qed.

(** X15 -- [analyze_uv_absorption] on arrays of one length.  It returns
    early exactly when no wavelength is at or below 350 nm.  Otherwise
    nothing fails, and the figures concern the UV points only: the
    reported minimum is the smallest transmission among the points at or
    below 350 nm and sits at the reported wavelength, which lies in the
    reported range, itself at or below 350 nm; the three counts are
    nested and bounded by the number of UV points. *)
Theorem uv_absorption_report wavelengths transmission :
  length transmission = length wavelengths ->
  (OzoneAnalysis.analyze_uv_absorption wavelengths transmission =
     Done OzoneAnalysis.NoUVWavelengths /\
   forall w, In w wavelengths -> 350 < w)
  \/
  exists f,
    OzoneAnalysis.analyze_uv_absorption wavelengths transmission =
      Done (OzoneAnalysis.UVFigures f) /\
    (exists i, nth_error wavelengths i = Some (OzoneAnalysis.uv_min_wvl f) /\
               nth_error transmission i =
                 Some (OzoneAnalysis.uv_min_trans f)) /\
    (forall i w t, nth_error wavelengths i = Some w ->
                   nth_error transmission i = Some t ->
                   w <= 350 -> OzoneAnalysis.uv_min_trans f <= t) /\
    OzoneAnalysis.uv_lo f <= OzoneAnalysis.uv_min_wvl f
      <= OzoneAnalysis.uv_hi f /\
    OzoneAnalysis.uv_hi f <= 350 /\
    (OzoneAnalysis.uv_very_strong f <= OzoneAnalysis.uv_strong f)%nat /\
    (OzoneAnalysis.uv_strong f <= OzoneAnalysis.uv_moderate f)%nat /\
    (OzoneAnalysis.uv_moderate f <= np_sum (less_equal wavelengths 350))%nat.
Proof.
  intros Hlen. unfold OzoneAnalysis.analyze_uv_absorption.
  set (mask := less_equal wavelengths 350).
  assert (Hmask : length mask = length wavelengths)
    by (unfold mask, less_equal; apply length_map).
  destruct (Nat.eqb (np_sum mask) 0) eqn:E0.
  - left. apply Nat.eqb_eq in E0. split; [reflexivity|].
    now apply count_le_zero.
  - right. apply Nat.eqb_neq in E0.
    rewrite (bool_index_aligned wavelengths mask Hmask). cbn [and_then].
    rewrite (bool_index_aligned transmission mask) by lia. cbn [and_then].
    set (uw := select wavelengths mask). set (ut := select transmission mask).
    assert (Luw : length uw = np_sum mask)
      by (apply select_length; exact Hmask).
    assert (Lut : length ut = np_sum mask)
      by (apply select_length; lia).
    assert (Hut : ut <> []) by (intros E; rewrite E in Lut; simpl in Lut; lia).
    assert (Huw : uw <> []) by (intros E; rewrite E in Luw; simpl in Luw; lia).
    destruct (np_argmin_spec ut Hut) as (k & Hk & Hklt & Hkle).
    destruct (np_min_spec uw Huw) as (lo & Hlo & _ & Hlole).
    destruct (np_max_spec uw Huw) as (hi & Hhi & Hhiin & Hhige).
    rewrite Hk; cbn [and_then].
    rewrite (index_nth ut k 0) by exact Hklt. cbn [and_then].
    rewrite (index_nth uw k 0) by lia. cbn [and_then].
    rewrite Hlo; cbn [and_then]. rewrite Hhi; cbn [and_then].
    eexists. split; [reflexivity|]. cbn.
    assert (Ekw : nth_error uw k = Some (nth k uw 0))
      by (apply nth_error_nth'; lia).
    assert (Ekt : nth_error ut k = Some (nth k ut 0))
      by (apply nth_error_nth'; lia).
    assert (Hown : forall w, In w uw -> w <= 350).
    { intros w Hw. apply select_own_mask in Hw. destruct Hw as [Hw _].
      unfold leb in Hw. destruct (Rle_dec w 350); [assumption|discriminate]. }
    split.
    { destruct (select_pairs wavelengths transmission mask k _ _ Ekw Ekt
                  ltac:(lia)) as (i & Hi1 & Hi2 & _).
      exists i. now split. }
    split.
    { intros i w t Hw Ht Hw350. apply Hkle.
      apply (select_covers transmission mask i t Ht).
      unfold mask, less_equal. rewrite nth_error_map, Hw. simpl.
      unfold leb. destruct (Rle_dec w 350); [reflexivity|contradiction]. }
    assert (Hkin : In (nth k uw 0) uw) by (apply nth_In; lia).
    split; [split; [now apply Hlole|now apply Hhige]|].
    split; [now apply Hown|].
    split; [apply count_below_mono; lra|].
    split; [apply count_below_mono; lra|].
    rewrite <- Lut. apply count_below_le_length.
Qed.

Lemma uv_absorption_report_witness :
  exists f,
    OzoneAnalysis.analyze_uv_absorption [300; 340; 400] [0.01; 0.4; 0.9] =
      Done (OzoneAnalysis.UVFigures f) /\
    OzoneAnalysis.uv_hi f <= 350.
Proof.
  destruct (uv_absorption_report [300; 340; 400] [0.01; 0.4; 0.9] eq_refl)
    as [[_ H]|(f & Hf & _ & _ & _ & Hhi & _)].
  - exfalso. specialize (H 300 (or_introl eq_refl)). lra.
  - exists f. split; assumption.
Defined.

(* ================================================================= *)
(** * The absorption bands of the water analysis *)

Import WaterAnalysis BandIntervals.

(* ----------------------------------------------------------------- *)
(** ** Slices *)

Lemma slice_length {A} (l : list A) s e :
  (e <= length l)%nat -> length (slice l s e) = (e - s)%nat.
Proof.
  intros H. unfold slice. rewrite length_firstn, length_skipn. lia.
Qed.

Lemma slice_nth {A} (l : list A) s e k d :
  (k < e - s)%nat -> nth k (slice l s e) d = nth (s + k) l d.
Proof.
  intros H. unfold slice. rewrite nth_firstn.
  replace (Nat.ltb k (e - s)) with true by (symmetry; apply Nat.ltb_lt; lia).
  apply nth_skipn.
Qed.

Lemma slice_In (l : list R) s e x :
  (e <= length l)%nat -> In x (slice l s e) ->
  exists j, (s <= j < e)%nat /\ x = nth j l 0.
Proof.
  intros He Hx. destruct (In_nth _ _ 0 Hx) as (k & Hk & Ek).
  rewrite slice_length in Hk by exact He.
  exists (s + k)%nat. split; [lia|].
  rewrite <- Ek. now apply slice_nth.
Qed.

Lemma slice_has (l : list R) s e j :
  (e <= length l)%nat -> (s <= j < e)%nat -> In (nth j l 0) (slice l s e).
Proof.
  intros He Hj. replace j with (s + (j - s))%nat by lia.
  rewrite <- (slice_nth l s e (j - s) 0) by lia.
  apply nth_In. rewrite slice_length by exact He. lia.
Qed.

(* ----------------------------------------------------------------- *)
(** ** The loop walks the listed ends *)

Lemma skipn_nth_cons {A} (l : list A) k d :
  (k < length l)%nat -> skipn k l = nth k l d :: skipn (S k) l.
Proof.
  revert k. induction l as [|x l IH]; intros [|k] H; simpl in *;
    try lia; [reflexivity|].
  apply IH. lia.
Qed.

Lemma band_ends_nth breaks n k :
  (k <= length breaks)%nat ->
  nth k (band_ends breaks n) O =
  if Nat.ltb k (length breaks) then (nth k breaks O + 1)%nat else n.
Proof.
  intros Hk. unfold band_ends.
  destruct (Nat.ltb k (length breaks)) eqn:E.
  - apply Nat.ltb_lt in E. rewrite app_nth1 by (rewrite length_map; lia).
    pose (f := fun b : nat => (b + 1)%nat).
    change (map (fun b => (b + 1)%nat) breaks) with (map f breaks).
    rewrite (nth_indep _ O (f O)) by (rewrite length_map; lia).
    rewrite map_nth. reflexivity.
  - apply Nat.ltb_ge in E. rewrite app_nth2 by (rewrite length_map; lia).
    rewrite length_map. replace (k - length breaks)%nat with O by lia.
    reflexivity.
Qed.

Lemma and_then_ext {A B} (m : outcome A) (k k' : A -> outcome B) :
  (forall a, k a = k' a) -> and_then m k = and_then m k'.
Proof. intros H. destruct m; simpl; [apply H|reflexivity]. Qed.

Lemma band_loop_walks_ends aw tr breaks d k s c :
  (k + d = length breaks + 1)%nat ->
  band_loop aw tr breaks (seq k d) s c =
  bands_from aw tr (skipn k (band_ends breaks (length aw))) s c.
Proof.
  revert k s c. induction d as [|d IH]; intros k s c Hk.
  - simpl. rewrite skipn_all2; [reflexivity|].
    unfold band_ends. rewrite length_app, length_map. simpl. lia.
  - rewrite (skipn_nth_cons _ k O)
      by (unfold band_ends; rewrite length_app, length_map; simpl; lia).
    rewrite band_ends_nth by lia.
    cbn [seq band_loop bands_from].
    destruct (Nat.ltb s _); [|apply IH; lia].
    do 5 (apply and_then_ext; intros ?).
    rewrite IH by lia. reflexivity.
Qed.

(* ----------------------------------------------------------------- *)
(** ** Every interval yields a line that describes it *)

Lemma bands_from_tiles aw tr ends s c :
  length tr = length aw -> climbs s ends (length aw) ->
  exists lines,
    bands_from aw tr ends s c = Done lines /\ tiles aw tr s c ends lines.
Proof.
  intros Hlen. revert s c. induction ends as [|e ends IH]; intros s c Hc.
  - exists []. split; [reflexivity|constructor].
  - destruct Hc as [[Hse Hen] Hc]. cbn [bands_from].
    replace (Nat.ltb s e) with true by (symmetry; apply Nat.ltb_lt; lia).
    set (wr := slice aw s e). set (trr := slice tr s e).
    assert (Lw : length wr = (e - s)%nat) by (apply slice_length; lia).
    assert (Lt : length trr = (e - s)%nat) by (apply slice_length; lia).
    assert (Hwne : wr <> []) by (intros E; rewrite E in Lw; simpl in Lw; lia).
    assert (Htne : trr <> [])
      by (intros E; rewrite E in Lt; simpl in Lt; lia).
    destruct (np_argmin_spec trr Htne) as (k & Hk & Hklt & Hkle).
    destruct (np_min_spec wr Hwne) as (lo & Hlo & Hloin & Hlole).
    destruct (np_max_spec wr Hwne) as (hi & Hhi & Hhiin & Hhige).
    rewrite Hk; cbn [and_then].
    rewrite (index_nth trr k 0) by exact Hklt. cbn [and_then].
    rewrite Hlo; cbn [and_then]. rewrite Hhi; cbn [and_then].
    rewrite (index_nth wr k 0) by lia. cbn [and_then].
    destruct (IH e (c + 1)%nat Hc) as (lines & Hlines & Htiles).
    rewrite Hlines. cbn [and_then].
    eexists. split; [reflexivity|].
    replace (c + 1)%nat with (S c) in * by lia.
    constructor; [exact Hse| |exact Htiles].
    unfold describes. cbn.
    split; [reflexivity|]. split; [|split; [|split]].
    + intros j Hj. split; [split|].
      * apply Hlole. apply slice_has; lia.
      * apply Hhige. apply slice_has; lia.
      * apply Hkle. apply slice_has; lia.
    + apply slice_In; [lia|exact Hloin].
    + apply slice_In; [lia|exact Hhiin].
    + exists (s + k)%nat. split; [lia|].
      unfold trr, wr. rewrite !slice_nth by lia. now split.
Qed.

(* ----------------------------------------------------------------- *)
(** ** Where the breaks are *)

Lemma where_from_climbs mask i s n :
  (s <= i)%nat -> (i + length mask < n)%nat ->
  climbs s (band_ends (where_from i mask) n) n.
Proof.
  revert i s. induction mask as [|b mask IH]; intros i s Hs Hn; simpl in *.
  - unfold band_ends. simpl. lia.
  - destruct b.
    + unfold band_ends. cbn [map app climbs]. split; [lia|].
      apply (IH (S i) (i + 1)%nat); lia.
    + apply IH; lia.
Qed.

Lemma where_from_length mask i : length (where_from i mask) = np_sum mask.
Proof.
  revert i. induction mask as [|b mask IH]; intros i; simpl; [reflexivity|].
  destruct b; simpl; now rewrite IH.
Qed.

Lemma where_from_true mask i b :
  In b (where_from i mask) ->
  (i <= b)%nat /\ nth (b - i) mask false = true.
Proof.
  revert i. induction mask as [|m mask IH]; intros i; simpl; [tauto|].
  destruct m; simpl.
  - intros [<-|H].
    + split; [lia|]. now rewrite Nat.sub_diag.
    + destruct (IH (S i) H) as [H1 H2]. split; [lia|].
      replace (b - i)%nat with (S (b - S i)) by lia. exact H2.
  - intros H. destruct (IH (S i) H) as [H1 H2]. split; [lia|].
    replace (b - i)%nat with (S (b - S i)) by lia. exact H2.
Qed.

Lemma np_diff_length (l : list R) : length (np_diff l) = (length l - 1)%nat.
Proof.
  induction l as [|a [|b l] IH]; try reflexivity.
  change (np_diff (a :: b :: l)) with ((b - a) :: np_diff (b :: l)).
  simpl length in *. rewrite IH. lia.
Qed.

Lemma np_diff_nth (l : list R) j :
  (S j < length l)%nat ->
  nth j (np_diff l) 0 = nth (S j) l 0 - nth j l 0.
Proof.
  revert j. induction l as [|a [|b l] IH]; intros j Hj; simpl in Hj; try lia.
  change (np_diff (a :: b :: l)) with ((b - a) :: np_diff (b :: l)).
  destruct j as [|j]; [reflexivity|].
  change (nth (S j) ((b - a) :: np_diff (b :: l)) 0)
    with (nth j (np_diff (b :: l)) 0).
  rewrite IH by (simpl; lia). reflexivity.
Qed.

(** A break is an index whose successor lies more than 20 further. *)
Lemma break_gap (aw : list R) b :
  In b (np_where (greater_than (np_diff aw) 20)) ->
  (S b < length aw)%nat /\ 20 < nth (S b) aw 0 - nth b aw 0.
Proof.
  intros H. apply where_from_true in H. destruct H as [_ H].
  rewrite Nat.sub_0_r in H.
  assert (Hb : (b < length (greater_than (np_diff aw) 20))%nat).
  { destruct (Nat.lt_ge_cases b (length (greater_than (np_diff aw) 20)))
      as [Hl|Hg]; [exact Hl|].
    rewrite nth_overflow in H by exact Hg. discriminate. }
  unfold greater_than in *. rewrite length_map, np_diff_length in Hb.
  split; [lia|].
  rewrite (nth_indep _ false ((fun x => ltb 20 x) 0)) in H
    by (rewrite length_map, np_diff_length; lia).
  pose (f := fun x : R => ltb 20 x).
  change (map (fun x => ltb 20 x) (np_diff aw)) with (map f (np_diff aw)) in H.
  change ((fun x : R => ltb 20 x) 0) with (f 0) in H.
  rewrite map_nth in H. unfold f, ltb in H.
  rewrite np_diff_nth in H by lia.
  destruct (Rlt_dec 20 _); [assumption|discriminate].
Qed.

(* ----------------------------------------------------------------- *)
(** ** What the lines say together *)

Lemma tiles_length aw tr s c ends lines :
  tiles aw tr s c ends lines -> length lines = length ends.
Proof. induction 1; simpl; [reflexivity|now f_equal]. Qed.

Lemma tiles_numbers aw tr s c ends lines :
  tiles aw tr s c ends lines ->
  map band_number lines = seq (S c) (length lines).
Proof.
  induction 1 as [|s c e ends l lines Hse Hd Ht IH]; simpl; [reflexivity|].
  destruct Hd as [Hn _]. now rewrite Hn, IH.
Qed.

Lemma tiles_lines aw tr s c ends lines n :
  tiles aw tr s c ends lines -> climbs s ends n ->
  forall l, In l lines ->
    exists j, (j < n)%nat /\ deepest l = nth j tr 0 /\
              deepest_at l = nth j aw 0 /\
              band_lo l <= nth j aw 0 <= band_hi l.
Proof.
  induction 1 as [s c|s c e ends l0 lines Hse Hd Ht IH]; simpl.
  - intros _ l [].
  - intros [Hen Hc] l [<-|Hin].
    + destruct Hd as (_ & Hall & _ & _ & (j & Hj & Hdeep & Hat)).
      exists j. split; [lia|]. split; [exact Hdeep|]. split; [exact Hat|].
      apply Hall. exact Hj.
    + apply IH; assumption.
Qed.

Lemma increasing_cons_iff a (l : list R) :
  increasing (a :: l) <-> Forall (fun x => a < x) l /\ increasing l.
Proof.
  revert a. induction l as [|b l IH]; intros a.
  - simpl. split; [intros _; split; [constructor|exact I]|tauto].
  - change (increasing (a :: b :: l)) with (a < b /\ increasing (b :: l)).
    split.
    + intros [Hab Hinc]. split; [|exact Hinc].
      constructor; [exact Hab|].
      apply IH in Hinc. destruct Hinc as [Hb _].
      eapply Forall_impl; [|exact Hb]. intros x Hx. simpl in Hx. lra.
    + intros [Hall Hinc]. inversion Hall; subst. now split.
Qed.

Lemma select_increasing (l : list R) (mask : list bool) :
  increasing l -> increasing (select l mask).
Proof.
  revert mask. induction l as [|a l IH]; intros [|b mask] Hinc;
    try exact I.
  apply increasing_cons_iff in Hinc. destruct Hinc as [Hall Hinc].
  cbn [select]. destruct b; [|now apply IH].
  apply increasing_cons_iff. split; [|now apply IH].
  apply Forall_forall. intros x Hx. apply select_In in Hx.
  rewrite Forall_forall in Hall. now apply Hall.
Qed.

Lemma tiles_separated aw tr breaks :
  increasing aw ->
  (forall b, In b breaks ->
     (S b < length aw)%nat /\ 20 < nth (S b) aw 0 - nth b aw 0) ->
  forall s c lines,
    tiles aw tr s c (band_ends breaks (length aw)) lines ->
    climbs s (band_ends breaks (length aw)) (length aw) ->
    forall k l1 l2,
      nth_error lines k = Some l1 -> nth_error lines (S k) = Some l2 ->
      band_hi l1 + 20 < band_lo l2.
Proof.
  intros Hinc. induction breaks as [|b breaks IH]; intros Hgap s c lines Ht Hc.
  - unfold band_ends in Ht. simpl in Ht.
    inversion Ht as [|? ? ? ? ? ? ? ? Ht']; subst. inversion Ht'; subst.
    intros k l1 l2 _ H2. destruct k; discriminate.
  - unfold band_ends in Ht, Hc. cbn [map app] in Ht, Hc.
    fold (band_ends breaks (length aw)) in Ht, Hc.
    inversion Ht as [|? ? ? ? l lines' Hse Hd Ht']; subst.
    destruct Hc as [Hen Hc].
    intros k l1 l2 H1 H2. destruct k as [|k].
    + simpl in H1, H2. inversion H1; subst l1. clear H1.
      destruct lines' as [|l2' lines'']; [discriminate|].
      simpl in H2. inversion H2; subst l2'. clear H2.
      destruct (band_ends breaks (length aw)) as [|e' ends'] eqn:Ee;
        [inversion Ht'|].
      inversion Ht' as [|? ? ? ? ? ? Hse' Hd' _]; subst.
      destruct Hc as [He' _].
      destruct Hd as (_ & _ & _ & (j1 & Hj1 & ->) & _).
      destruct Hd' as (_ & _ & (j2 & Hj2 & ->) & _).
      destruct (Hgap b (or_introl eq_refl)) as [Hb Hg].
      pose proof (increasing_nth_le aw Hinc j1 b ltac:(lia)).
      pose proof (increasing_nth_le aw Hinc (S b) j2 ltac:(lia)).
      lra.
    + simpl in H1, H2.
      apply (IH (fun b' Hb' => Hgap b' (or_intror Hb'))
                (b + 1)%nat (S c) lines' Ht' Hc k l1 l2 H1 H2).
Qed.

(* ----------------------------------------------------------------- *)
(** ** [find_water_absorption_bands] *)

Lemma water_bands_tiles wavelengths transmission threshold :
  length transmission = length wavelengths ->
  np_sum (less_than transmission threshold) <> O ->
  let mask := less_than transmission threshold in
  let aw := select wavelengths mask in
  let tr := select transmission mask in
  let breaks := np_where (greater_than (np_diff aw) 20) in
  exists lines,
    find_water_absorption_bands wavelengths transmission threshold =
      Done (Bands lines) /\
    tiles aw tr 0 0 (band_ends breaks (length aw)) lines /\
    climbs 0 (band_ends breaks (length aw)) (length aw) /\
    length tr = length aw /\ length aw = np_sum mask.
Proof.
  intros Hlen Hn mask aw tr breaks.
  assert (Hmask : length mask = length transmission)
    by (unfold mask, less_than; apply length_map).
  assert (Law : length aw = np_sum mask)
    by (apply select_length; lia).
  assert (Ltr : length tr = np_sum mask)
    by (apply select_length; lia).
  assert (Hc : climbs 0 (band_ends breaks (length aw)) (length aw)).
  { assert (Hn' : np_sum mask <> O) by exact Hn.
    apply where_from_climbs; [lia|].
    unfold greater_than. rewrite length_map, np_diff_length. lia. }
  assert (Leq : length tr = length aw) by (rewrite Law; exact Ltr).
  destruct (bands_from_tiles aw tr _ 0%nat 0%nat Leq Hc)
    as (lines & Hrun & Ht).
  exists lines. split; [|repeat split; assumption].
  unfold find_water_absorption_bands. fold mask.
  replace (Nat.eqb (np_sum mask) 0) with false
    by (symmetry; now apply Nat.eqb_neq).
  rewrite (bool_index_aligned wavelengths mask) by lia. cbn [and_then].
  rewrite (bool_index_aligned transmission mask) by lia. cbn [and_then].
  fold aw tr breaks.
  rewrite (band_loop_walks_ends aw tr breaks _ 0) by lia.
  cbn [skipn]. rewrite Hrun. reflexivity.
Qed.

Lemma select_covers_pair {A B} (a : list A) (b : list B) (mask : list bool)
    i x y :
  nth_error a i = Some x -> nth_error b i = Some y ->
  nth_error mask i = Some true ->
  exists k, nth_error (select a mask) k = Some x /\
            nth_error (select b mask) k = Some y.
Proof.
  revert b mask i.
  induction a as [|a0 a IH]; intros [|b0 b] [|m mask] [|i]; simpl;
    try discriminate.
  - intros Hx Hy Hm. inversion Hx; inversion Hy; inversion Hm; subst.
    exists O. simpl. auto.
  - intros Hx Hy Hm.
    destruct (IH b mask i Hx Hy Hm) as (k & Hkx & Hky).
    destruct m; [exists (S k)|exists k]; simpl; auto.
Qed.

(** A point of the selected arrays is a point of the arrays given, and
    its transmission is below the threshold. *)
Lemma absorbing_point wavelengths transmission threshold j :
  length transmission = length wavelengths ->
  (j < length (select wavelengths (less_than transmission threshold)))%nat ->
  (j < length (select transmission (less_than transmission threshold)))%nat ->
  exists i,
    nth_error wavelengths i =
      Some (nth j (select wavelengths (less_than transmission threshold)) 0) /\
    nth_error transmission i =
      Some (nth j (select transmission (less_than transmission threshold)) 0) /\
    nth j (select transmission (less_than transmission threshold)) 0
      < threshold.
Proof.
  intros Hlen Hw Ht.
  destruct (select_pairs wavelengths transmission
              (less_than transmission threshold) j _ _
              (nth_error_nth' _ 0 Hw) (nth_error_nth' _ 0 Ht)
              (eq_sym Hlen)) as (i & Hi & Hti & Hm).
  exists i. split; [exact Hi|]. split; [exact Hti|].
  unfold less_than in Hm. rewrite nth_error_map, Hti in Hm.
  simpl in Hm. unfold ltb in Hm.
  destruct (Rlt_dec _ threshold); [assumption|discriminate].
Qed.

Lemma tiles_ends aw tr s c ends lines n :
  tiles aw tr s c ends lines -> climbs s ends n ->
  forall l, In l lines ->
    (exists j, (j < n)%nat /\ band_lo l = nth j aw 0) /\
    (exists j, (j < n)%nat /\ band_hi l = nth j aw 0).
Proof.
  induction 1 as [s c|s c e ends l0 lines Hse Hd Ht IH]; simpl.
  - intros _ l [].
  - intros [Hen Hc] l [<-|Hin].
    + destruct Hd as (_ & _ & (j1 & Hj1 & Hlo) & (j2 & Hj2 & Hhi) & _).
      split; [exists j1|exists j2]; (split; [lia|assumption]).
    + apply IH; assumption.
Qed.

Lemma tiles_cover_deepest aw tr s c ends lines n :
  tiles aw tr s c ends lines -> climbs s ends n ->
  forall j, (s <= j < n)%nat ->
    exists l, In l lines /\ band_lo l <= nth j aw 0 <= band_hi l /\
              deepest l <= nth j tr 0.
Proof.
  induction 1 as [s c|s c e ends l lines Hse Hd Ht IH]; simpl.
  - intros -> j Hj. lia.
  - intros [Hen Hc] j Hj. destruct (Nat.lt_ge_cases j e) as [Hlt|Hge].
    + exists l. split; [now left|].
      destruct Hd as (_ & Hall & _). apply Hall. lia.
    + destruct (IH Hc j ltac:(lia)) as (l' & Hin & Hb).
      exists l'. split; [now right|exact Hb].
Qed.

(** X16 -- the band report.  On arrays of one length the function
    returns early exactly when no transmission is below the threshold.
    Otherwise, that is when some transmission is below the threshold,
    nothing fails: it prints one line more than there are gaps wider than
    20 nm between successive absorbing wavelengths, numbered 1, 2, ....
    Every line is read off the arrays: its deepest transmission is the
    transmission of a point of the input, below the threshold, printed
    with that point's wavelength, which lies inside the line's range; the
    two ends of the range are wavelengths of absorbing points.  And every
    absorbing point lies in the range of some line whose deepest
    transmission is no greater than the point's. *)
Theorem water_bands_report wavelengths transmission threshold :
  length transmission = length wavelengths ->
  (find_water_absorption_bands wavelengths transmission threshold =
     Done NoStrongBands <->
   forall t, In t transmission -> threshold <= t)
  /\
  ((find_water_absorption_bands wavelengths transmission threshold =
      Done NoStrongBands /\
    forall t, In t transmission -> threshold <= t)
   \/
   exists lines,
     find_water_absorption_bands wavelengths transmission threshold =
       Done (Bands lines) /\
     (exists t, In t transmission /\ t < threshold) /\
     length lines =
       S (np_sum (greater_than
                    (np_diff (select wavelengths
                                     (less_than transmission threshold)))
                    20)) /\
     map band_number lines = seq 1 (length lines) /\
     Forall (fun l =>
               deepest l < threshold /\
               band_lo l <= deepest_at l <= band_hi l /\
               (exists i,
                  nth_error wavelengths i = Some (deepest_at l) /\
                  nth_error transmission i = Some (deepest l)) /\
               (exists i t,
                  nth_error wavelengths i = Some (band_lo l) /\
                  nth_error transmission i = Some t /\ t < threshold) /\
               (exists i t,
                  nth_error wavelengths i = Some (band_hi l) /\
                  nth_error transmission i = Some t /\ t < threshold))
            lines /\
     forall i w t,
       nth_error wavelengths i = Some w ->
       nth_error transmission i = Some t -> t < threshold ->
       exists l, In l lines /\ band_lo l <= w <= band_hi l /\
                 deepest l <= t).
Proof.
  intros Hlen.
  destruct (Nat.eq_dec (np_sum (less_than transmission threshold)) 0)
    as [E0|E0].
  - assert (Hrun : find_water_absorption_bands wavelengths transmission
                     threshold = Done NoStrongBands)
      by (unfold find_water_absorption_bands; now rewrite E0).
    assert (Hall : forall t, In t transmission -> threshold <= t)
      by now apply count_below_zero.
    split; [split; [intros _; exact Hall|intros _; exact Hrun]|].
    left. split; assumption.
  - destruct (water_bands_tiles wavelengths transmission threshold Hlen E0)
      as (lines & Hrun & Ht & Hc & Ltr & Law).
    split.
    { split.
      - intros H. rewrite Hrun in H. discriminate.
      - intros Hall. exfalso. apply E0. now apply count_below_zero. }
    right.
    assert (Hpoint : forall j,
              (j < length (select wavelengths
                             (less_than transmission threshold)))%nat ->
              exists i,
                nth_error wavelengths i =
                  Some (nth j (select wavelengths
                                 (less_than transmission threshold)) 0) /\
                nth_error transmission i =
                  Some (nth j (select transmission
                                 (less_than transmission threshold)) 0) /\
                nth j (select transmission
                         (less_than transmission threshold)) 0 < threshold).
    { intros j Hj. apply absorbing_point; [exact Hlen|exact Hj|].
      cbv zeta in Ltr. rewrite Ltr. exact Hj. }
    cbv zeta in Ht, Hc, Ltr, Law.
    set (mask := less_than transmission threshold) in *.
    set (aw := select wavelengths mask) in *.
    set (tr := select transmission mask) in *.
    exists lines. split; [exact Hrun|].
    split.
    { assert (H0 : (0 < length aw)%nat) by lia.
      destruct (Hpoint O H0) as (i & _ & Hi & Hlt).
      exists (nth 0 tr 0). split; [|exact Hlt].
      eapply nth_error_In. exact Hi. }
    split.
    { rewrite (tiles_length _ _ _ _ _ _ Ht). unfold band_ends.
      rewrite length_app, length_map. unfold np_where.
      rewrite where_from_length. simpl. lia. }
    split; [exact (tiles_numbers _ _ _ _ _ _ Ht)|].
    split.
    { apply Forall_forall. intros l Hl.
      destruct (tiles_lines _ _ _ _ _ _ _ Ht Hc l Hl)
        as (j & Hj & Hd & Hat & Hb).
      destruct (tiles_ends _ _ _ _ _ _ _ Ht Hc l Hl)
        as ((j1 & Hj1 & Hlo) & (j2 & Hj2 & Hhi)).
      destruct (Hpoint j Hj) as (i & Hiw & Hit & Hlt).
      destruct (Hpoint j1 Hj1) as (i1 & Hiw1 & Hit1 & Hlt1).
      destruct (Hpoint j2 Hj2) as (i2 & Hiw2 & Hit2 & Hlt2).
      rewrite Hd, Hat, Hlo, Hhi.
      split; [exact Hlt|].
      split; [rewrite <- Hlo, <- Hhi; exact Hb|].
      split; [exists i; now split|].
      split; [exists i1, (nth j1 tr 0)|exists i2, (nth j2 tr 0)];
        repeat split; assumption. }
    intros i w t Hw Htt Hlt.
    destruct (select_covers_pair wavelengths transmission mask i w t Hw Htt)
      as (j & Hjw & Hjt).
    { unfold mask, less_than. rewrite nth_error_map, Htt. simpl.
      unfold ltb. destruct (Rlt_dec t threshold); [reflexivity|contradiction]. }
    assert (Hj : (j < length aw)%nat)
      by (apply nth_error_Some; fold aw in Hjw; rewrite Hjw; discriminate).
    destruct (tiles_cover_deepest _ _ _ _ _ _ _ Ht Hc j ltac:(lia))
      as (l & Hin & Hb & Hdeep).
    fold aw in Hjw. fold tr in Hjt.
    rewrite (nth_error_nth _ _ 0 Hjw) in Hb.
    rewrite (nth_error_nth _ _ 0 Hjt) in Hdeep.
    exists l. split; [exact Hin|]. split; assumption.
Qed.

Lemma water_bands_report_witness :
  exists lines,
    find_water_absorption_bands [700; 720; 730; 940] [0.9; 0.3; 0.4; 0.1] 0.5
      = Done (Bands lines) /\
    map band_number lines = seq 1 (length lines).
Proof.
  destruct (water_bands_report [700; 720; 730; 940] [0.9; 0.3; 0.4; 0.1] 0.5
              eq_refl)
    as [_ [[_ H]|(lines & Hrun & _ & _ & Hnum & _)]].
  - exfalso. specialize (H 0.3 ltac:(simpl; tauto)). lra.
  - exists lines. split; assumption.
Defined.

(** X17 -- on an increasing grid the printed bands are disjoint, in
    increasing order, and more than 20 nm apart: each line's range ends
    more than 20 nm before the next line's range begins. *)
Theorem water_bands_separated wavelengths transmission threshold lines :
  length transmission = length wavelengths ->
  increasing wavelengths ->
  find_water_absorption_bands wavelengths transmission threshold =
    Done (Bands lines) ->
  Forall (fun l => band_lo l <= band_hi l) lines /\
  forall k l1 l2,
    nth_error lines k = Some l1 -> nth_error lines (S k) = Some l2 ->
    band_hi l1 + 20 < band_lo l2.
Proof.
  intros Hlen Hinc Hrun.
  destruct (Nat.eq_dec (np_sum (less_than transmission threshold)) 0)
    as [E0|E0].
  { unfold find_water_absorption_bands in Hrun. rewrite E0 in Hrun.
    discriminate. }
  destruct (water_bands_tiles wavelengths transmission threshold Hlen E0)
    as (lines' & Hrun' & Ht & Hc & Ltr & Law).
  rewrite Hrun in Hrun'. inversion Hrun'; subst lines'. clear Hrun'.
  split.
  - apply Forall_forall. intros l Hl.
    destruct (tiles_lines _ _ _ _ _ _ _ Ht Hc l Hl) as (j & _ & _ & _ & Hb).
    lra.
  - apply (tiles_separated _ _ _ (select_increasing _ _ Hinc)
             (break_gap _) 0%nat 0%nat lines Ht Hc).
Qed.

Lemma water_bands_separated_witness :
  exists lines,
    find_water_absorption_bands [700; 720; 730; 940] [0.9; 0.3; 0.4; 0.1] 0.5
      = Done (Bands lines) /\
    Forall (fun l => band_lo l <= band_hi l) lines.
Proof.
  destruct (water_bands_tiles [700; 720; 730; 940] [0.9; 0.3; 0.4; 0.1] 0.5
              eq_refl) as (lines & Hrun & _).
  - unfold less_than, ltb. cbn [map np_sum].
    destruct (Rlt_dec 0.3 0.5); [|lra].
    destruct (Rlt_dec 0.9 0.5); simpl; lia.
  - exists lines. split; [exact Hrun|].
    apply (water_bands_separated [700; 720; 730; 940] [0.9; 0.3; 0.4; 0.1]
             0.5 lines eq_refl); [simpl; lra|exact Hrun].
Defined.

(* ================================================================= *)
(** * The comparison of the two result tables *)

Import ComparisonScript.


Lemma zipWith_firstn {A B C} (f : A -> B -> C) (a : list A) (b : list B) :
  zipWith f (firstn (Nat.min (length b) (length a)) a)
            (firstn (Nat.min (length b) (length a)) b) = zipWith f a b.
Proof.
  revert b. induction a as [|x a IH]; intros [|y b]; simpl; try reflexivity.
  now rewrite IH.
Qed.

Lemma zipWith_map {A B A' B' C} (f : A' -> B' -> C) (g : A -> A')
    (h : B -> B') (a : list A) (b : list B) :
  zipWith f (map g a) (map h b) = zipWith (fun x y => f (g x) (h y)) a b.
Proof.
  revert b. induction a as [|x a IH]; intros [|y b]; simpl; try reflexivity.
  now rewrite IH.
Qed.

Lemma map_zipWith {A B C D} (g : C -> D) (f : A -> B -> C) a b :
  map g (zipWith f a b) = zipWith (fun x y => g (f x y)) a b.
Proof.
  revert b. induction a as [|x a IH]; intros [|y b]; simpl; try reflexivity.
  now rewrite IH.
Qed.

Lemma zipWith_nth_error {A B C} (f : A -> B -> C) a b i z :
  nth_error (zipWith f a b) i = Some z <->
  exists x y, nth_error a i = Some x /\ nth_error b i = Some y /\ z = f x y.
Proof.
  revert b i. induction a as [|x a IH]; intros [|y b] [|i]; simpl;
    try (split; [discriminate|intros (? & ? & ? & ? & ?); discriminate]).
  - split.
    + intros H. inversion H. now exists x, y.
    + intros (x' & y' & Hx & Hy & ->). inversion Hx; inversion Hy. reflexivity.
  - apply IH.
Qed.

Lemma abs_diffs_of_truncated python_data matlab_data :
  let n := Nat.min (length python_data) (length matlab_data) in
  map Rabs (zipWith Rminus (map snd (firstn n matlab_data))
                           (map snd (firstn n python_data))) =
  abs_diffs python_data matlab_data.
Proof.
  intros n. unfold abs_diffs, n.
  rewrite zipWith_map, map_zipWith. apply zipWith_firstn.
Qed.

Lemma abs_diffs_length python_data matlab_data :
  length (abs_diffs python_data matlab_data) =
  Nat.min (length python_data) (length matlab_data).
Proof.
  unfold abs_diffs. rewrite zipWith_length. lia.
Qed.

Lemma argmax_from_bound (l : list R) best bi i :
  (bi < i)%nat -> (argmax_from best bi i l < i + length l)%nat.
Proof.
  revert best bi i. induction l as [|y l IH]; intros best bi i H; simpl.
  - lia.
  - destruct (Rlt_dec best y).
    + specialize (IH y i (S i) ltac:(lia)). lia.
    + specialize (IH best bi (S i) ltac:(lia)). lia.
Qed.

(** The run on two tables with rows: nothing fails, and the figures are
    functions of the absolute differences. *)
Lemma compare_done python_data matlab_data :
  python_data <> [] -> matlab_data <> [] ->
  exists c mx,
    compare python_data matlab_data = Done c /\
    np_max (abs_diffs python_data matlab_data) = Done mx /\
    n_points c = Nat.min (length python_data) (length matlab_data) /\
    max_abs_diff c = mx /\
    mean_abs_diff c = np_mean (abs_diffs python_data matlab_data) /\
    conclusion c =
      (if ltb mx 1e-5 then ExcellentAgreement
       else if ltb mx 1e-3 then GoodAgreement
       else SignificantDifferences) /\
    (np_any (greater_than (abs_diffs python_data matlab_data) 1e-6) = false ->
     flagged c = []) /\
    (length (flagged c) <= 10)%nat.
Proof.
  intros Hp Hm. unfold compare.
  set (n := Nat.min (length python_data) (length matlab_data)).
  assert (Hn : (0 < n)%nat).
  { unfold n. destruct python_data, matlab_data; try contradiction.
    simpl. lia. }
  assert (Lp : length (firstn n python_data) = n)
    by (rewrite length_firstn; unfold n; lia).
  rewrite (index_nth (firstn n python_data) 0 (0, 0)) by lia.
  cbn [and_then].
  assert (Hlast : index_last (firstn n python_data) (0, 0) =
                  Done (last (firstn n python_data) (0, 0))).
  { destruct (firstn n python_data); [simpl in Lp; lia|reflexivity]. }
  rewrite Hlast. cbn [and_then].
  pose proof (abs_diffs_of_truncated python_data matlab_data) as Had.
  cbv zeta in Had. fold n in Had. rewrite Had. clear Had.
  set (ad := abs_diffs python_data matlab_data).
  assert (Lad : length ad = n) by apply abs_diffs_length.
  assert (Hne : ad <> []) by (intros E; rewrite E in Lad; simpl in Lad; lia).
  destruct (np_max_spec ad Hne) as (mx & Hmx & _).
  rewrite Hmx. cbn [and_then].
  assert (Harg : exists k, np_argmax ad = Done k /\ (k < n)%nat).
  { destruct ad as [|x ad']; [contradiction|]. eexists. split; [reflexivity|].
    pose proof (argmax_from_bound ad' x 0 1 ltac:(lia)).
    simpl in Lad. lia. }
  destruct Harg as (k & Hk & Hkn). rewrite Hk. cbn [and_then].
  rewrite (index_nth (firstn n python_data) k (0, 0)) by lia.
  cbn [and_then].
  eexists. exists mx. split; [reflexivity|].
  cbn [n_points max_abs_diff mean_abs_diff conclusion flagged].
  split; [reflexivity|]. split; [exact Lp|]. split; [reflexivity|].
  split; [reflexivity|]. split; [reflexivity|].
  split.
  - intros ->. reflexivity.
  - destruct (np_any _); [|simpl; lia]. apply firstn_le_length.
Qed.

Lemma compare_empty python_data matlab_data :
  python_data = [] \/ matlab_data = [] ->
  compare python_data matlab_data = Fail IndexError.
Proof.
  intros [->| ->]; unfold compare.
  - reflexivity.
  - rewrite Nat.min_0_r. reflexivity.
Qed.

(** X18 -- the comparison needs rows in both tables.  If either table is
    empty the script stops with [IndexError] before comparing anything;
    otherwise nothing fails and the number of points compared is the
    length of the shorter table. *)
Theorem comparison_needs_rows python_data matlab_data :
  (python_data = [] \/ matlab_data = [] ->
   compare python_data matlab_data = Fail IndexError) /\
  (python_data <> [] -> matlab_data <> [] ->
   exists c, compare python_data matlab_data = Done c /\
             n_points c = Nat.min (length python_data) (length matlab_data)).
Proof.
  split; [apply compare_empty|].
  intros Hp Hm.
  destruct (compare_done python_data matlab_data Hp Hm)
    as (c & mx & Hc & _ & Hn & _).
  exists c. now split.
Qed.

Lemma comparison_needs_rows_witness :
  exists c, compare [(300, 0.5); (308, 0.6)] [(300, 0.5)] = Done c /\
            n_points c = 1%nat.
Proof.
  apply (proj2 (comparison_needs_rows [(300, 0.5); (308, 0.6)] [(300, 0.5)]));
    discriminate.
Defined.

Lemma compare_rows python_data matlab_data c :
  compare python_data matlab_data = Done c ->
  python_data <> [] /\ matlab_data <> [].
Proof.
  intros H. split; intros E;
    rewrite compare_empty in H by (first [now left|now right]);
    discriminate.
Qed.

Lemma abs_diffs_rows python_data matlab_data d :
  In d (abs_diffs python_data matlab_data) <->
  exists i p m, nth_error python_data i = Some p /\
                nth_error matlab_data i = Some m /\
                d = Rabs (snd m - snd p).
Proof.
  unfold abs_diffs. split.
  - intros H. apply In_nth_error in H. destruct H as [i Hi].
    apply zipWith_nth_error in Hi. destruct Hi as (m & p & Hm & Hp & ->).
    now exists i, p, m.
  - intros (i & p & m & Hp & Hm & ->).
    apply (nth_error_In _ i). apply zipWith_nth_error. now exists m, p.
Qed.

(** X19 -- the conclusion never overstates the agreement of the rows both
    tables have.  "Excellent agreement" is printed only if every pair of
    values differs by less than 1e-5; anything but "significant
    differences" is printed only if every pair differs by less than 1e-3;
    so a single pair that differs by 1e-3 or more makes the conclusion
    "significant differences".  Each of these follows from the order of
    the differences alone. *)
Theorem conclusion_never_overstates python_data matlab_data c :
  compare python_data matlab_data = Done c ->
  (conclusion c = ExcellentAgreement ->
   forall i p m, nth_error python_data i = Some p ->
                 nth_error matlab_data i = Some m ->
                 Rabs (snd m - snd p) < 1e-5) /\
  (conclusion c <> SignificantDifferences ->
   forall i p m, nth_error python_data i = Some p ->
                 nth_error matlab_data i = Some m ->
                 Rabs (snd m - snd p) < 1e-3) /\
  ((exists i p m, nth_error python_data i = Some p /\
                  nth_error matlab_data i = Some m /\
                  1e-3 <= Rabs (snd m - snd p)) ->
   conclusion c = SignificantDifferences).
Proof.
  intros Hrun. destruct (compare_rows _ _ _ Hrun) as [Hp Hm].
  destruct (compare_done python_data matlab_data Hp Hm)
    as (c' & mx & Hc & Hmx & _ & Hmax & _ & Hconc & _).
  rewrite Hrun in Hc. inversion Hc; subst c'. clear Hc.
  assert (Hne : abs_diffs python_data matlab_data <> []).
  { intros E. rewrite E in Hmx. discriminate. }
  destruct (np_max_spec _ Hne) as (mx' & Hmx' & _ & Hge).
  rewrite Hmx in Hmx'. inversion Hmx'; subst mx'. clear Hmx'.
  assert (Hall : forall i p m, nth_error python_data i = Some p ->
                   nth_error matlab_data i = Some m ->
                   Rabs (snd m - snd p) <= mx).
  { intros i p m Hi Hj. apply Hge. apply abs_diffs_rows. now exists i, p, m. }
  rewrite Hconc. unfold ltb.
  destruct (Rlt_dec mx 1e-5) as [H5|H5]; [|destruct (Rlt_dec mx 1e-3) as [H3|H3]].
  - split; [|split].
    + intros _ i p m Hi Hj. specialize (Hall i p m Hi Hj). lra.
    + intros _ i p m Hi Hj. specialize (Hall i p m Hi Hj). lra.
    + intros (i & p & m & Hi & Hj & Hd). specialize (Hall i p m Hi Hj). lra.
  - split; [|split].
    + discriminate.
    + intros _ i p m Hi Hj. specialize (Hall i p m Hi Hj). lra.
    + intros (i & p & m & Hi & Hj & Hd). specialize (Hall i p m Hi Hj). lra.
  - split; [|split].
    + discriminate.
    + intros H. now contradiction H.
    + reflexivity.
Qed.

Lemma conclusion_never_overstates_witness :
  exists c, compare [(300, 0.5)] [(300, 0.75)] = Done c /\
            conclusion c = SignificantDifferences.
Proof.
  destruct (compare_done [(300, 0.5)] [(300, 0.75)]) as (c & _ & Hc & _);
    try discriminate.
  exists c. split; [exact Hc|].
  apply (proj2 (proj2 (conclusion_never_overstates _ _ c Hc))).
  exists O, (300, 0.5), (300, 0.75).
  split; [reflexivity|]. split; [reflexivity|].
  cbn [snd]. rewrite Rabs_right by lra. lra.
Defined.

Lemma np_any_greater_false (l : list R) thr :
  np_any (greater_than l thr) = false <-> forall d, In d l -> d <= thr.
Proof.
  unfold np_any, greater_than. induction l as [|x l IH]; simpl.
  - split; [intros _ d []|reflexivity].
  - unfold ltb at 1. destruct (Rlt_dec thr x) as [H|H]; simpl.
    + split; [discriminate|].
      intros Hall. specialize (Hall x (or_introl eq_refl)). lra.
    + rewrite IH. split.
      * intros Hall d [<-|Hd]; [lra|now apply Hall].
      * intros Hall d Hd. apply Hall. now right.
Qed.

(** X20 -- the two thresholds are consistent in one direction: when no
    pair of values differs by more than 1e-6, no row is flagged as a
    significant difference and the conclusion is "excellent agreement".
    At most ten flagged rows are ever listed. *)
Theorem nothing_flagged_means_excellent python_data matlab_data c :
  compare python_data matlab_data = Done c ->
  (length (flagged c) <= 10)%nat /\
  ((forall i p m, nth_error python_data i = Some p ->
                  nth_error matlab_data i = Some m ->
                  Rabs (snd m - snd p) <= 1e-6) ->
   flagged c = [] /\ conclusion c = ExcellentAgreement).
Proof.
  intros Hrun. destruct (compare_rows _ _ _ Hrun) as [Hp Hm].
  destruct (compare_done python_data matlab_data Hp Hm)
    as (c' & mx & Hc & Hmx & _ & _ & _ & Hconc & Hflag & Hten).
  rewrite Hrun in Hc. inversion Hc; subst c'. clear Hc.
  split; [exact Hten|]. intros Hsmall.
  assert (Hall : forall d, In d (abs_diffs python_data matlab_data) ->
                           d <= 1e-6).
  { intros d Hd. apply abs_diffs_rows in Hd.
    destruct Hd as (i & p & m & Hi & Hj & ->). now apply (Hsmall i p m). }
  split.
  - apply Hflag. now apply np_any_greater_false.
  - rewrite Hconc.
    assert (Hne : abs_diffs python_data matlab_data <> []).
    { intros E. rewrite E in Hmx. discriminate. }
    destruct (np_max_spec _ Hne) as (mx' & Hmx' & Hin & _).
    rewrite Hmx in Hmx'. inversion Hmx'; subst mx'.
    specialize (Hall mx Hin). unfold ltb.
    destruct (Rlt_dec mx 1e-5); [reflexivity|lra].
Qed.

Lemma nothing_flagged_means_excellent_witness :
  exists c, compare [(300, 0.5)] [(300, 0.5)] = Done c /\
            flagged c = [] /\ conclusion c = ExcellentAgreement.
Proof.
  destruct (compare_done [(300, 0.5)] [(300, 0.5)]) as (c & _ & Hc & _);
    try discriminate.
  exists c. split; [exact Hc|].
  apply (proj2 (nothing_flagged_means_excellent _ _ c Hc)).
  intros [|[|i]] p m Hi Hj; simpl in Hi, Hj; try discriminate.
  inversion Hi; inversion Hj; subst. simpl.
  replace (0.5 - 0.5) with 0 by lra. rewrite Rabs_R0. lra.
Defined.
